(** * DynamicTextureAtlas: a shallow embedding of
    Graphics/GraphicsTools/src/DynamicTextureAtlas.cpp

    The atlas packs rectangular requests into the slices of a texture array.
    [Uint32] values are integers in [0, 2^32) with the wrap-around of the
    C++ arithmetic written out; the atomic counters are two's-complement
    [Int32]/[Int64] values.  Loops of the source that need not terminate
    are given fuel, and [None] stands for a run that has no result (a loop
    that never exits, or an access the C++ leaves undefined). *)

From Stdlib Require Import ZArith Lia Bool.
From Stdlib Require Import Floats.SpecFloat.
From stdpp Require Import base option list gmap.

Local Open Scope Z_scope.

(** ** Machine integers *)

Definition wrap32 (z : Z) : Z := z mod 2 ^ 32.
Definition wrap_s32 (z : Z) : Z := (z + 2 ^ 31) mod 2 ^ 32 - 2 ^ 31.
Definition wrap_s64 (z : Z) : Z := (z + 2 ^ 63) mod 2 ^ 64 - 2 ^ 63.

Definition is_uint32 (z : Z) : Prop := 0 <= z < 2 ^ 32.
Definition is_int32 (z : Z) : Prop := - 2 ^ 31 <= z < 2 ^ 31.
Definition is_int64 (z : Z) : Prop := - 2 ^ 63 <= z < 2 ^ 63.

(** ** Helpers of Align.hpp *)

(** Modelled from the spec: [IsPowerOfTwo] lives in Align.hpp, which is not
    part of the sources at hand; the constructor rejects a nonzero minimum
    alignment that "is not a power of two". *)
Definition IsPowerOfTwo (v : Z) : bool :=
  (0 <? v) && (Z.land v (v - 1) =? 0).

(** Modelled from the spec: [AlignUp] lives in Align.hpp, which is not part
    of the sources at hand; "round width and height up to multiples of the
    resolved alignment", in 32-bit unsigned arithmetic. *)
Definition AlignUp (val alignment : Z) : Z :=
  wrap32 (val + (alignment - 1)) / alignment * alignment.

(** ** Alignment resolution (Allocate, lines 272-281) *)

(** [while (std::min(Width, Height) > Alignment) Alignment *= 2;]
    with [m = std::min(Width, Height)]. *)
Fixpoint align_loop (fuel : nat) (m Alignment : Z) : option Z :=
  if m >? Alignment then
    match fuel with
    | O => None
    | S fuel' => align_loop fuel' m (wrap32 (Alignment * 2))
    end
  else Some Alignment.

(** Thirty-three rounds decide the loop: after thirty-two doublings a 32-bit
    value has wrapped to zero (see [align_loop_fuel_enough]). *)
Definition align_fuel : nat := 33.

Definition resolve_alignment (MinAlignment Width Height : Z) : option Z :=
  if MinAlignment >? 0
  then align_loop align_fuel (Z.min Width Height) MinAlignment
  else Some 1.

(** The rule as the specification words it, over unbounded integers: "start
    from the configured minimum alignment (or 1 if unset); while the
    alignment is smaller than min(width, height), double it". *)
Fixpoint spec_double_while (fuel : nat) (m a : Z) : Z :=
  match fuel with
  | O => a
  | S fuel' => if a <? m then spec_double_while fuel' m (a * 2) else a
  end.

Definition spec_alignment (MinAlignment Width Height : Z) : Z :=
  let start := if MinAlignment =? 0 then 1 else MinAlignment in
  let m := Z.min Width Height in
  spec_double_while (Z.to_nat m) m start.

(** ** Descriptors and external objects *)

(** Modelled from the spec: the enumeration is declared in GraphicsTypes.h,
    which is not part of the sources at hand; the atlas only tells "2D" and
    "2D-array" from every other dimension. *)
Inductive RESOURCE_DIMENSION :=
| RESOURCE_DIM_TEX_2D
| RESOURCE_DIM_TEX_2D_ARRAY
| RESOURCE_DIM_OTHER (code : Z).

(** Modelled from the spec: declared in GraphicsTypes.h; the atlas only
    tells an unset format from a set one. *)
Inductive TEXTURE_FORMAT :=
| TEX_FORMAT_UNKNOWN
| TEX_FORMAT_KNOWN (code : positive).

Record TextureDesc := {
  Type_ : RESOURCE_DIMENSION;
  Width : Z;
  Height : Z;
  ArraySize : Z;
  MipLevels : Z;
  Format : TEXTURE_FORMAT
}.

Definition set_ArraySize (d : TextureDesc) (n : Z) : TextureDesc :=
  {| Type_ := Type_ d; Width := Width d; Height := Height d;
     ArraySize := n; MipLevels := MipLevels d; Format := Format d |}.

(** A texture object handed out by the device; [GetDesc] is the descriptor
    it was given by whoever created it. *)
Record ITexture := {
  GetDesc : TextureDesc;
  tex_id : Z
}.

(** [IRenderDevice::CreateTexture]: [None] is a null texture pointer. *)
Definition IRenderDevice : Type := TextureDesc -> option ITexture.

(** The device context is only ever asked to copy; the requests show up in
    the trace. *)
Inductive IDeviceContext := DeviceContext.

Record CopyTextureAttribs := {
  pSrcTexture : option ITexture;
  pDstTexture : option ITexture;
  SrcSlice : Z;
  DstSlice : Z;
  SrcMipLevel : Z;
  DstMipLevel : Z
}.

Inductive LogMessage :=
| MsgExceedsAtlasDimensions (w h W H : Z)
| MsgFailedToSuballocate (w h : Z)
| MsgExpandingTextureArray (slices version : Z).

(** What an operation does to the world outside the atlas. *)
Inductive Event :=
| EvLogError (m : LogMessage)          (* LOG_ERROR_MESSAGE *)
| EvLogInfo (m : LogMessage)           (* LOG_INFO_MESSAGE *)
| EvCreateTexture (d : TextureDesc)    (* pDevice->CreateTexture *)
| EvCopyTexture (a : CopyTextureAttribs). (* pContext->CopyTexture *)

Record DynamicTextureAtlasCreateInfo := {
  Desc : TextureDesc;
  MinAlignment : Z;
  ExtraSliceCount : Z;
  MaxSliceCount : Z
}.

(** ** The per-slice region manager (DynamicAtlasManager) *)

Module Region.
(** [DynamicAtlasManager::Region]: the atlas reads the four fields. *)
Record t := { x : Z; y : Z; width : Z; height : Z }.
(** A default-constructed region. *)
Definition default : t := {| x := 0; y := 0; width := 0; height := 0 |}.
End Region.

(** DynamicAtlasManager.hpp is not part of the sources at hand: the packing
    algorithm is a parameter.  A manager is built for a grid of cells,
    allocates and frees regions, and a default-constructed region is empty
    (line 343 relies on it when no slice was ever asked). *)
Class RegionManager := {
  Mgr : Type;
  Mgr_new : Z -> Z -> Mgr;
  Mgr_Allocate : Mgr -> Z -> Z -> Mgr * Region.t;
  Mgr_Free : Mgr -> Region.t -> Mgr;
  IsEmpty : Region.t -> bool;
  IsEmpty_default : IsEmpty Region.default = true
}.

(** ** IEEE binary32 ([float]) *)

Definition float : Type := spec_float.
(** [static_cast<float>(Uint32)], round to nearest even. *)
Definition float_of_uint32 (z : Z) : float := binary_normalize 24 128 z 0 false.
Definition float_div (a b : float) : float := SFdiv 24 128 a b.

(** ** The suballocation handle *)

Record TextureAtlasSuballocationImpl := {
  m_Subregion : Region.t;
  m_Slice : Z;
  m_Alignment : Z;
  m_Size : Z * Z
}.

Definition GetOrigin (h : TextureAtlasSuballocationImpl) : Z * Z :=
  (wrap32 (Region.x (m_Subregion h) * m_Alignment h),
   wrap32 (Region.y (m_Subregion h) * m_Alignment h)).

Definition GetSlice (h : TextureAtlasSuballocationImpl) : Z := m_Slice h.

Definition GetSize (h : TextureAtlasSuballocationImpl) : Z * Z := m_Size h.

Definition GetUVScaleBias (AtlasDesc : TextureDesc)
    (h : TextureAtlasSuballocationImpl) : float * float * float * float :=
  let Origin := (float_of_uint32 (fst (GetOrigin h)),
                 float_of_uint32 (snd (GetOrigin h))) in
  let Size := (float_of_uint32 (fst (GetSize h)),
               float_of_uint32 (snd (GetSize h))) in
  (float_div (fst Size) (float_of_uint32 (Width AtlasDesc)),
   float_div (snd Size) (float_of_uint32 (Height AtlasDesc)),
   float_div (fst Origin) (float_of_uint32 (Width AtlasDesc)),
   float_div (snd Origin) (float_of_uint32 (Height AtlasDesc))).

(** ** The atlas *)

Section Atlas.
Context {RM : RegionManager}.

Record DynamicTextureAtlasImpl := {
  m_Desc : TextureDesc;
  m_MinAlignment : Z;
  m_ExtraSliceCount : Z;
  m_MaxSliceCount : Z;
  m_pTexture : option ITexture;
  m_Version : Z;
  m_AllocationCount : Z;
  m_AllocatedArea : Z;
  m_UsedArea : Z;
  m_Slices : list (option Mgr);
  m_AlignmentToSlice : gmap Z (list Z);
  m_NextUnusedSlice : Z
}.

(** The part of the state guarded by [m_SlicesMtx]. *)
Definition set_structure (st : DynamicTextureAtlasImpl)
    (slices : list (option Mgr)) (buckets : gmap Z (list Z)) (next : Z)
    : DynamicTextureAtlasImpl :=
  {| m_Desc := m_Desc st; m_MinAlignment := m_MinAlignment st;
     m_ExtraSliceCount := m_ExtraSliceCount st;
     m_MaxSliceCount := m_MaxSliceCount st;
     m_pTexture := m_pTexture st; m_Version := m_Version st;
     m_AllocationCount := m_AllocationCount st;
     m_AllocatedArea := m_AllocatedArea st; m_UsedArea := m_UsedArea st;
     m_Slices := slices; m_AlignmentToSlice := buckets;
     m_NextUnusedSlice := next |}.

Definition set_slices (st : DynamicTextureAtlasImpl)
    (slices : list (option Mgr)) : DynamicTextureAtlasImpl :=
  set_structure st slices (m_AlignmentToSlice st) (m_NextUnusedSlice st).

Definition set_buckets (st : DynamicTextureAtlasImpl)
    (buckets : gmap Z (list Z)) : DynamicTextureAtlasImpl :=
  set_structure st (m_Slices st) buckets (m_NextUnusedSlice st).

(** The three atomic usage counters. *)
Definition set_counters (st : DynamicTextureAtlasImpl)
    (count allocated used : Z) : DynamicTextureAtlasImpl :=
  {| m_Desc := m_Desc st; m_MinAlignment := m_MinAlignment st;
     m_ExtraSliceCount := m_ExtraSliceCount st;
     m_MaxSliceCount := m_MaxSliceCount st;
     m_pTexture := m_pTexture st; m_Version := m_Version st;
     m_AllocationCount := count;
     m_AllocatedArea := allocated; m_UsedArea := used;
     m_Slices := m_Slices st; m_AlignmentToSlice := m_AlignmentToSlice st;
     m_NextUnusedSlice := m_NextUnusedSlice st |}.

(** The backing texture, its descriptor and the version. *)
Definition set_texture (st : DynamicTextureAtlasImpl)
    (desc : TextureDesc) (tex : option ITexture) (version : Z)
    : DynamicTextureAtlasImpl :=
  {| m_Desc := desc; m_MinAlignment := m_MinAlignment st;
     m_ExtraSliceCount := m_ExtraSliceCount st;
     m_MaxSliceCount := m_MaxSliceCount st;
     m_pTexture := tex; m_Version := version;
     m_AllocationCount := m_AllocationCount st;
     m_AllocatedArea := m_AllocatedArea st; m_UsedArea := m_UsedArea st;
     m_Slices := m_Slices st; m_AlignmentToSlice := m_AlignmentToSlice st;
     m_NextUnusedSlice := m_NextUnusedSlice st |}.

Definition counters (st : DynamicTextureAtlasImpl) : Z * Z * Z :=
  (m_AllocatedArea st, m_UsedArea st, m_AllocationCount st).

(** *** Construction (lines 138-193, 487-500) *)

Inductive CtorError :=
| ErrInvalidDimension
| ErrUnknownFormat
| ErrZeroWidth
| ErrZeroHeight
| ErrAlignmentNotPowerOfTwo
| ErrWidthNotMultiple
| ErrHeightNotMultiple
| ErrCreateTextureFailed.

Definition is_2D_or_array (t : RESOURCE_DIMENSION) : bool :=
  match t with
  | RESOURCE_DIM_TEX_2D | RESOURCE_DIM_TEX_2D_ARRAY => true
  | RESOURCE_DIM_OTHER _ => false
  end.

Definition is_unknown (f : TEXTURE_FORMAT) : bool :=
  match f with TEX_FORMAT_UNKNOWN => true | TEX_FORMAT_KNOWN _ => false end.

(** The checks of the constructor body, in source order; [None] when all
    pass. *)
Definition validate (d : TextureDesc) (MinAlign : Z) : option CtorError :=
  if negb (is_2D_or_array (Type_ d)) then Some ErrInvalidDimension
  else if is_unknown (Format d) then Some ErrUnknownFormat
  else if Width d =? 0 then Some ErrZeroWidth
  else if Height d =? 0 then Some ErrZeroHeight
  else if negb (MinAlign =? 0) then
    if negb (IsPowerOfTwo MinAlign) then Some ErrAlignmentNotPowerOfTwo
    else if negb (Width d mod MinAlign =? 0) then Some ErrWidthNotMultiple
    else if negb (Height d mod MinAlign =? 0) then Some ErrHeightNotMultiple
    else None
  else None.

Definition max_slice_count (CreateInfo : DynamicTextureAtlasCreateInfo) : Z :=
  match Type_ (Desc CreateInfo) with
  | RESOURCE_DIM_TEX_2D_ARRAY => Z.min (MaxSliceCount CreateInfo) 2048
  | _ => 1
  end.

(** The constructor: [inl e] is the exception thrown. *)
Definition construct (pDevice : option IRenderDevice)
    (CreateInfo : DynamicTextureAtlasCreateInfo)
    : CtorError + DynamicTextureAtlasImpl :=
  let d := Desc CreateInfo in
  match validate d (MinAlignment CreateInfo) with
  | Some e => inl e
  | None =>
      let slices := replicate (Z.to_nat (ArraySize d)) (@None Mgr) in
      let d1 := match pDevice with
                | None => set_ArraySize d 0
                | Some _ => d
                end in
      let build tex :=
        {| m_Desc := d1;
           m_MinAlignment := MinAlignment CreateInfo;
           m_ExtraSliceCount := ExtraSliceCount CreateInfo;
           m_MaxSliceCount := max_slice_count CreateInfo;
           m_pTexture := tex; m_Version := 0;
           m_AllocationCount := 0; m_AllocatedArea := 0; m_UsedArea := 0;
           m_Slices := slices; m_AlignmentToSlice := ∅;
           m_NextUnusedSlice := 0 |} in
      match pDevice with
      | Some dev =>
          if ArraySize d1 >? 0 then
            match dev d1 with
            | Some tex => inr (build (Some tex))
            | None => inl ErrCreateTextureFailed
            end
          else inr (build None)
      | None => inr (build None)
      end
  end.

(** [CreateDynamicTextureAtlas]: the exception is caught and logged, and
    [*ppAtlas] stays unset. *)
Definition CreateDynamicTextureAtlas (pDevice : option IRenderDevice)
    (CreateInfo : DynamicTextureAtlasCreateInfo)
    : option DynamicTextureAtlasImpl :=
  match construct pDevice CreateInfo with
  | inr atlas => Some atlas
  | inl _ => None
  end.

(** What the specification lists as the reasons for construction to fail. *)
Definition spec_config_invalid (CreateInfo : DynamicTextureAtlasCreateInfo) : Prop :=
  let d := Desc CreateInfo in
  let a := MinAlignment CreateInfo in
  (Type_ d <> RESOURCE_DIM_TEX_2D /\ Type_ d <> RESOURCE_DIM_TEX_2D_ARRAY)
  \/ Format d = TEX_FORMAT_UNKNOWN
  \/ Width d = 0 \/ Height d = 0
  \/ (a <> 0 /\ (IsPowerOfTwo a = false \/ Width d mod a <> 0 \/ Height d mod a <> 0)).

(** *** Allocate (lines 256-367) *)

(** [while (SliceIt != Slices.end() && Slice > *SliceIt) ++SliceIt;]
    the element the iterator stops at, [None] for [Slices.end()]. *)
Fixpoint find_next_slice (Slices : list Z) (Slice : Z) : option Z :=
  match Slices with
  | [] => None
  | s :: rest => if Slice >? s then find_next_slice rest Slice else Some s
  end.

(** [while (Slice >= m_Slices.size()) m_Slices.resize(...)], lines 311-318.
    [std::vector::resize] cuts or pads with null pointers. *)
Fixpoint resize_slices (fuel : nat) (Slice Extra MaxSlices : Z)
    (slices : list (option Mgr)) : option (list (option Mgr)) :=
  if Slice >=? Z.of_nat (length slices) then
    match fuel with
    | O => None
    | S fuel' =>
        let ExtraSliceCount :=
          if negb (Extra =? 0) then Extra
          else wrap32 (Z.of_nat (length slices)) in
        resize_slices fuel' Slice Extra MaxSlices
          (resize (Z.to_nat (Z.min (wrap32 (Slice + ExtraSliceCount)) MaxSlices))
                  None slices)
    end
  else Some slices.

(** One round decides the inner loop in every state the atlas can reach: a
    run that has not ended by then never ends (see
    [resize_slices_fuel_enough]). *)
Definition resize_fuel : nat := 2.

(** Lines 295-297: [find] the list of slices of this alignment, [emplace]
    an empty one when there is none. *)
Definition find_or_emplace (Alignment : Z) (buckets : gmap Z (list Z))
    : gmap Z (list Z) :=
  match buckets !! Alignment with
  | Some _ => buckets
  | None => <[Alignment := []]> buckets
  end.

(** The variables of the placement loop. *)
Record Placement := {
  pl_atlas : DynamicTextureAtlasImpl;
  pl_Slice : Z;
  pl_Subregion : Region.t
}.

Inductive StepResult :=
| StepBreak (p : Placement)      (* left the loop by [break] *)
| StepContinue (p : Placement)   (* reached [++Slice] *)
| StepUndefined.                 (* no result: endless resize or bad access *)

(** Lines 292-331: the block under [m_SlicesMtx].  It yields the atlas and
    the slice index chosen, [inl] when line 309 breaks out of the loop. *)
Definition select_slice (Alignment : Z) (st : DynamicTextureAtlasImpl) (Slice : Z)
    : option (DynamicTextureAtlasImpl * Z + DynamicTextureAtlasImpl * Z) :=
  let buckets := find_or_emplace Alignment (m_AlignmentToSlice st) in
  let Slices := default [] (buckets !! Alignment) in
  let Slice := match find_next_slice Slices Slice with
               | Some s => s
               | None => m_NextUnusedSlice st
               end in
  if Slice =? m_NextUnusedSlice st then
    if Slice =? m_MaxSliceCount st then
      Some (inl (set_buckets st buckets, Slice))
    else
      match resize_slices resize_fuel Slice (m_ExtraSliceCount st)
                          (m_MaxSliceCount st) (m_Slices st) with
      | None => None
      | Some slices =>
          let mgr := Mgr_new (Width (m_Desc st) / Alignment)
                             (Height (m_Desc st) / Alignment) in
          Some (inr (set_structure st
                       (<[Z.to_nat Slice := Some mgr]> slices)
                       (<[Alignment := Slices ++ [Slice]]> buckets)
                       (wrap32 (m_NextUnusedSlice st + 1)),
                     Slice))
      end
  else Some (inr (set_buckets st buckets, Slice)).

(** One round of the loop of lines 288-341. *)
Definition placement_step (Alignment AlignedWidth AlignedHeight : Z)
    (p : Placement) : StepResult :=
  match select_slice Alignment (pl_atlas p) (pl_Slice p) with
  | None => StepUndefined
  | Some (inl (st, Slice)) =>
      StepBreak {| pl_atlas := st; pl_Slice := Slice;
                   pl_Subregion := pl_Subregion p |}
  | Some (inr (st, Slice)) =>
      match m_Slices st !! Z.to_nat Slice with
      | None => StepUndefined            (* m_Slices[Slice] out of range *)
      | Some None =>                     (* pSliceMgr == nullptr *)
          StepContinue {| pl_atlas := st; pl_Slice := wrap32 (Slice + 1);
                          pl_Subregion := pl_Subregion p |}
      | Some (Some mgr) =>
          let '(mgr', Subregion) :=
            Mgr_Allocate mgr (AlignedWidth / Alignment) (AlignedHeight / Alignment) in
          let st' := set_slices st (<[Z.to_nat Slice := Some mgr']> (m_Slices st)) in
          if negb (IsEmpty Subregion) then
            StepBreak {| pl_atlas := st'; pl_Slice := Slice;
                         pl_Subregion := Subregion |}
          else
            StepContinue {| pl_atlas := st'; pl_Slice := wrap32 (Slice + 1);
                            pl_Subregion := Subregion |}
      end
  end.

(** [while (Slice < m_MaxSliceCount) { ... }] *)
Fixpoint placement_loop (fuel : nat) (Alignment AlignedWidth AlignedHeight : Z)
    (p : Placement) : option Placement :=
  if pl_Slice p <? m_MaxSliceCount (pl_atlas p) then
    match fuel with
    | O => None
    | S fuel' =>
        match placement_step Alignment AlignedWidth AlignedHeight p with
        | StepUndefined => None
        | StepBreak p' => Some p'
        | StepContinue p' =>
            placement_loop fuel' Alignment AlignedWidth AlignedHeight p'
        end
    end
  else Some p.

(** Every round moves the candidate past the slice it tried, so the loop
    runs at most [m_MaxSliceCount] rounds (see [placement_loop_total]). *)
Definition placement_fuel (st : DynamicTextureAtlasImpl) : nat :=
  S (Z.to_nat (m_MaxSliceCount st)).

(** The result of [Allocate]: the atlas afterwards, the handle stored in
    [*ppSuballocation] if any, and what was reported.

    Release build: [UNEXPECTED] (line 262) is a debug assertion and is
    compiled out, so the zero-size guard returns without reporting. *)
Definition Allocate (st : DynamicTextureAtlasImpl) (Width_ Height_ : Z)
    : option (DynamicTextureAtlasImpl * option TextureAtlasSuballocationImpl * list Event) :=
  if (Width_ =? 0) || (Height_ =? 0) then Some (st, None, [])
  else if (Width_ >? Width (m_Desc st)) || (Height_ >? Height (m_Desc st)) then
    Some (st, None,
          [EvLogError (MsgExceedsAtlasDimensions Width_ Height_
                         (Width (m_Desc st)) (Height (m_Desc st)))])
  else
    match resolve_alignment (m_MinAlignment st) Width_ Height_ with
    | None => None
    | Some Alignment =>
        let AlignedWidth := AlignUp Width_ Alignment in
        let AlignedHeight := AlignUp Height_ Alignment in
        match placement_loop (placement_fuel st) Alignment AlignedWidth AlignedHeight
                {| pl_atlas := st; pl_Slice := 0;
                   pl_Subregion := Region.default |} with
        | None => None
        | Some p =>
            let st1 := pl_atlas p in
            if IsEmpty (pl_Subregion p) then
              Some (st1, None,
                    [EvLogError (MsgFailedToSuballocate Width_ Height_)])
            else
              Some (set_counters st1
                      (wrap_s32 (m_AllocationCount st1 + 1))
                      (wrap_s64 (m_AllocatedArea st1 + wrap_s64 (Width_ * Height_)))
                      (wrap_s64 (m_UsedArea st1
                                 + wrap_s64 (AlignedWidth * AlignedHeight))),
                    Some {| m_Subregion := pl_Subregion p;
                            m_Slice := pl_Slice p;
                            m_Alignment := Alignment;
                            m_Size := (Width_, Height_) |},
                    [])
        end
    end.

(** *** Free (lines 369-389) and the handle's destructor (lines 462-465) *)

(** Release build: the block under [DILIGENT_DEBUG] is compiled out.
    [None]: [m_Slices[Slice]] is out of range or holds a null pointer. *)
Definition Free (st : DynamicTextureAtlasImpl) (Slice Alignment : Z)
    (Subregion : Region.t) (Width_ Height_ : Z) : option DynamicTextureAtlasImpl :=
  let st1 :=
    set_counters st
      (wrap_s32 (m_AllocationCount st + -1))
      (wrap_s64 (m_AllocatedArea st + wrap_s64 (- Width_ * Height_)))
      (wrap_s64 (m_UsedArea st
                 + wrap_s64 (- wrap32 (Region.width Subregion * Alignment)
                             * wrap32 (Region.height Subregion * Alignment)))) in
  match m_Slices st1 !! Z.to_nat Slice with
  | Some (Some mgr) =>
      Some (set_slices st1
              (<[Z.to_nat Slice := Some (Mgr_Free mgr Subregion)]> (m_Slices st1)))
  | _ => None
  end.

(** [~TextureAtlasSuballocationImpl], run when the last reference is
    released. *)
Definition destroy (st : DynamicTextureAtlasImpl)
    (h : TextureAtlasSuballocationImpl) : option DynamicTextureAtlasImpl :=
  Free st (m_Slice h) (m_Alignment h) (m_Subregion h)
       (fst (m_Size h)) (snd (m_Size h)).

(** *** GetTexture (lines 204-254) *)

(** The copy requests of lines 237-247, slice by slice and mip by mip. *)
Definition copy_requests (pSrc pDst : option ITexture) (StaleTexDesc : TextureDesc)
    : list CopyTextureAttribs :=
  flat_map (fun slice =>
    map (fun mip =>
           {| pSrcTexture := pSrc; pDstTexture := pDst;
              SrcSlice := slice; DstSlice := slice;
              SrcMipLevel := mip; DstMipLevel := mip |})
        (seqZ 0 (MipLevels StaleTexDesc)))
    (seqZ 0 (ArraySize StaleTexDesc)).

(** Release build: [DEV_CHECK_ERR] and [VERIFY_EXPR] are compiled out.
    [None]: a null [pDevice] or [pContext] is dereferenced. *)
Definition GetTexture (st : DynamicTextureAtlasImpl)
    (pDevice : option IRenderDevice) (pContext : option IDeviceContext)
    : option (DynamicTextureAtlasImpl * option ITexture * list Event) :=
  let ArraySize_ := wrap32 (Z.of_nat (length (m_Slices st))) in
  if negb (ArraySize (m_Desc st) =? ArraySize_) then
    match pDevice with
    | None => None
    | Some dev =>
        let desc := set_ArraySize (m_Desc st) ArraySize_ in
        let pNewTexture := dev desc in
        let version := wrap32 (m_Version st + 1) in
        let copies :=
          match m_pTexture st with
          | Some stale => copy_requests (Some stale) pNewTexture (GetDesc stale)
          | None => []
          end in
        match copies, pContext with
        | _ :: _, None => None
        | _, _ =>
            Some (set_texture st desc pNewTexture version,
                  pNewTexture,
                  EvCreateTexture desc
                  :: EvLogInfo (MsgExpandingTextureArray ArraySize_ version)
                  :: map EvCopyTexture copies)
        end
    end
  else Some (st, m_pTexture st, []).

Definition GetVersion (st : DynamicTextureAtlasImpl) : Z := m_Version st.

(** How often an operation asked the device for a new texture. *)
Definition is_create (e : Event) : bool :=
  match e with EvCreateTexture _ => true | _ => false end.

Definition count_replacements (tr : list Event) : nat :=
  length (List.filter is_create tr).

(** ** The states the atlas can be in *)

(** What one slice's manager can undergo once it exists: allocations and
    frees on that very manager. *)
Inductive mgr_op (m m' : Mgr) : Prop :=
| mgr_op_Allocate (w h : Z) : m' = fst (Mgr_Allocate m w h) -> mgr_op m m'
| mgr_op_Free (r : Region.t) : m' = Mgr_Free m r -> mgr_op m m'.

Definition mgr_evolves : relation Mgr := rtc mgr_op.

(** The invariant of the data guarded by [m_SlicesMtx]. *)
Record struct_inv (st : DynamicTextureAtlasImpl) : Prop := {
  inv_max : 0 <= m_MaxSliceCount st <= 2048;
  inv_extra : is_uint32 (m_ExtraSliceCount st);
  inv_next : 0 <= m_NextUnusedSlice st <= m_MaxSliceCount st;
  inv_next_len : m_NextUnusedSlice st <= Z.of_nat (length (m_Slices st));
  inv_len : Z.of_nat (length (m_Slices st)) < 2 ^ 32;
  inv_live : forall i, 0 <= i < m_NextUnusedSlice st ->
      exists mgr, m_Slices st !! Z.to_nat i = Some (Some mgr);
  inv_fresh : forall (k : nat) mgr, m_Slices st !! k = Some (Some mgr) ->
      Z.of_nat k < m_NextUnusedSlice st;
  inv_bucket_range : forall a l s, m_AlignmentToSlice st !! a = Some l ->
      s ∈ l -> 0 <= s < m_NextUnusedSlice st;
  inv_bucket_unique : forall a b la lb s,
      m_AlignmentToSlice st !! a = Some la ->
      m_AlignmentToSlice st !! b = Some lb ->
      s ∈ la -> s ∈ lb -> a = b;
  inv_bucket_nodup : forall a l, m_AlignmentToSlice st !! a = Some l -> NoDup l;
  inv_registered : forall i, 0 <= i < m_NextUnusedSlice st ->
      exists a l, m_AlignmentToSlice st !! a = Some l /\ i ∈ l
}.

(** The invariant of the whole object. *)
Record atlas_inv (st : DynamicTextureAtlasImpl) : Prop := {
  inv_struct : struct_inv st;
  inv_array_size : 0 <= ArraySize (m_Desc st) <= Z.of_nat (length (m_Slices st));
  inv_version : 0 <= m_Version st <= ArraySize (m_Desc st);
  inv_count : is_int32 (m_AllocationCount st);
  inv_allocated : is_int64 (m_AllocatedArea st);
  inv_used : is_int64 (m_UsedArea st)
}.

(** How the guarded data may differ between an earlier and a later state:
    the configuration is the same, nothing is taken away. *)
Record structure_le (st st' : DynamicTextureAtlasImpl) : Prop := {
  le_max : m_MaxSliceCount st' = m_MaxSliceCount st;
  le_extra : m_ExtraSliceCount st' = m_ExtraSliceCount st;
  le_min_alignment : m_MinAlignment st' = m_MinAlignment st;
  le_next : m_NextUnusedSlice st <= m_NextUnusedSlice st';
  le_length : (length (m_Slices st) <= length (m_Slices st'))%nat;
  le_slices : forall (k : nat) mgr, m_Slices st !! k = Some (Some mgr) ->
      exists mgr', m_Slices st' !! k = Some (Some mgr') /\ mgr_evolves mgr mgr';
  le_buckets : forall a l, m_AlignmentToSlice st !! a = Some l ->
      exists l', m_AlignmentToSlice st' !! a = Some (l ++ l')
}.

(** What the placement loop never touches. *)
Definition same_unguarded (st st' : DynamicTextureAtlasImpl) : Prop :=
  m_Desc st' = m_Desc st /\ m_pTexture st' = m_pTexture st
  /\ m_Version st' = m_Version st /\ counters st' = counters st.

(** What holds of the variables of the placement loop before every round
    of a call that started in [st0] and resolved alignment [a]. *)
Record placement_inv (st0 : DynamicTextureAtlasImpl) (a : Z) (p : Placement)
    : Prop := {
  pi_struct : struct_inv (pl_atlas p);
  pi_le : structure_le st0 (pl_atlas p);
  pi_same : same_unguarded st0 (pl_atlas p);
  pi_slice : 0 <= pl_Slice p <= m_NextUnusedSlice (pl_atlas p);
  pi_empty : IsEmpty (pl_Subregion p) = true;
  pi_new : forall i,
      m_NextUnusedSlice st0 <= i < m_NextUnusedSlice (pl_atlas p) ->
      exists l, m_AlignmentToSlice (pl_atlas p) !! a = Some l /\ i ∈ l
}.

(** The loop was left with a region: the manager of slice [pl_Slice p] gave
    it for [cw] x [ch] cells. *)
Record placed (st0 : DynamicTextureAtlasImpl) (a cw ch : Z) (p : Placement)
    : Prop := {
  pd_struct : struct_inv (pl_atlas p);
  pd_le : structure_le st0 (pl_atlas p);
  pd_same : same_unguarded st0 (pl_atlas p);
  pd_slice : 0 <= pl_Slice p < m_NextUnusedSlice (pl_atlas p);
  pd_nonempty : IsEmpty (pl_Subregion p) = false;
  pd_region : exists mgr,
      pl_Subregion p = snd (Mgr_Allocate mgr cw ch)
      /\ m_Slices (pl_atlas p) !! Z.to_nat (pl_Slice p)
         = Some (Some (fst (Mgr_Allocate mgr cw ch)));
  pd_bucket : exists l,
      m_AlignmentToSlice (pl_atlas p) !! a = Some l /\ pl_Slice p ∈ l;
  pd_new : forall i,
      m_NextUnusedSlice st0 <= i < m_NextUnusedSlice (pl_atlas p) ->
      exists l, m_AlignmentToSlice (pl_atlas p) !! a = Some l /\ i ∈ l
}.

(** A new slice can always be added: the increment is set and small, or
    capacity doubles and there is a slice to start from. *)
Definition can_grow (st : DynamicTextureAtlasImpl) : Prop :=
  (0 < m_ExtraSliceCount st /\ m_MaxSliceCount st + m_ExtraSliceCount st < 2 ^ 32)
  \/ (m_ExtraSliceCount st = 0 /\ m_Slices st <> []).

(** One operation on the atlas that returns. *)
Inductive step (st st' : DynamicTextureAtlasImpl) : Prop :=
| step_Allocate w h oh tr :
    Allocate st w h = Some (st', oh, tr) -> step st st'
| step_Free Slice Alignment Subregion w h :
    Free st Slice Alignment Subregion w h = Some st' -> step st st'
| step_GetTexture pDevice pContext tex tr :
    GetTexture st pDevice pContext = Some (st', tex, tr) -> step st st'.

Definition steps : relation DynamicTextureAtlasImpl := rtc step.

(** The contract of the region manager that the usage counters rely on: a
    region that is not empty has the size that was asked for. *)
Definition allocates_requested_size : Prop :=
  forall mgr w h,
    IsEmpty (snd (Mgr_Allocate mgr w h)) = false ->
    Region.width (snd (Mgr_Allocate mgr w h)) = w /\
    Region.height (snd (Mgr_Allocate mgr w h)) = h.

End Atlas.

(** The fields of a create-info are [Uint32]. *)
Definition well_typed (CreateInfo : DynamicTextureAtlasCreateInfo) : Prop :=
  is_uint32 (Width (Desc CreateInfo)) /\
  is_uint32 (Height (Desc CreateInfo)) /\
  is_uint32 (ArraySize (Desc CreateInfo)) /\
  is_uint32 (MinAlignment CreateInfo) /\
  is_uint32 (ExtraSliceCount CreateInfo) /\
  is_uint32 (MaxSliceCount CreateInfo).

(** ** A small region manager to run the atlas on examples

    Rows are stacked from the top; a freed row is not used again. *)
Record Shelf := { shelf_w : Z; shelf_h : Z; shelf_next : Z }.

Definition Shelf_Allocate (m : Shelf) (w h : Z) : Shelf * Region.t :=
  if (0 <? w) && (0 <? h) && (w <=? shelf_w m) && (shelf_next m + h <=? shelf_h m)
  then ({| shelf_w := shelf_w m; shelf_h := shelf_h m;
           shelf_next := shelf_next m + h |},
        {| Region.x := 0; Region.y := shelf_next m;
           Region.width := w; Region.height := h |})
  else (m, Region.default).

Definition Shelf_IsEmpty (r : Region.t) : bool :=
  (Region.width r =? 0) || (Region.height r =? 0).

Definition ShelfManager : RegionManager :=
  {| Mgr := Shelf;
     Mgr_new := fun w h => {| shelf_w := w; shelf_h := h; shelf_next := 0 |};
     Mgr_Allocate := Shelf_Allocate;
     Mgr_Free := fun m _ => m;
     IsEmpty := Shelf_IsEmpty;
     IsEmpty_default := eq_refl |}.

(** A device that always creates the texture asked for, and one that never
    does. *)
Definition good_device : IRenderDevice :=
  fun d => Some {| GetDesc := d; tex_id := ArraySize d |}.
Definition failing_device : IRenderDevice := fun _ => None.

Definition desc_256 (layers : Z) : TextureDesc :=
  {| Type_ := RESOURCE_DIM_TEX_2D_ARRAY; Width := 256; Height := 256;
     ArraySize := layers; MipLevels := 1; Format := TEX_FORMAT_KNOWN 1 |}.

(** The scenario of the specification: 256 x 256, one layer, no minimum
    alignment, one more slice at a time. *)
Definition info_256 (max_slices : Z) : DynamicTextureAtlasCreateInfo :=
  {| Desc := desc_256 1; MinAlignment := 0; ExtraSliceCount := 1;
     MaxSliceCount := max_slices |}.

(** The atlas of [info_256] right after construction. *)
Definition atlas_256 (max_slices : Z) : @DynamicTextureAtlasImpl ShelfManager :=
  {| m_Desc := desc_256 1; m_MinAlignment := 0; m_ExtraSliceCount := 1;
     m_MaxSliceCount := Z.min max_slices 2048;
     m_pTexture := good_device (desc_256 1); m_Version := 0;
     m_AllocationCount := 0; m_AllocatedArea := 0; m_UsedArea := 0;
     m_Slices := [None]; m_AlignmentToSlice := ∅; m_NextUnusedSlice := 0 |}.

(** An atlas whose minimum alignment does not divide evenly into a
    request that covers it: 96 x 96 with minimum alignment 32, up to three
    slices. *)
Definition desc_96 : TextureDesc :=
  {| Type_ := RESOURCE_DIM_TEX_2D_ARRAY; Width := 96; Height := 96;
     ArraySize := 1; MipLevels := 1; Format := TEX_FORMAT_KNOWN 1 |}.

Definition info_96 : DynamicTextureAtlasCreateInfo :=
  {| Desc := desc_96; MinAlignment := 32; ExtraSliceCount := 1;
     MaxSliceCount := 3 |}.

Definition atlas_96 : @DynamicTextureAtlasImpl ShelfManager :=
  {| m_Desc := desc_96; m_MinAlignment := 32; m_ExtraSliceCount := 1;
     m_MaxSliceCount := 3;
     m_pTexture := good_device desc_96; m_Version := 0;
     m_AllocationCount := 0; m_AllocatedArea := 0; m_UsedArea := 0;
     m_Slices := [None]; m_AlignmentToSlice := ∅; m_NextUnusedSlice := 0 |}.

(** The atlas after [Allocate], for building example states. *)
Definition after_Allocate (st : @DynamicTextureAtlasImpl ShelfManager)
    (w h : Z) : @DynamicTextureAtlasImpl ShelfManager :=
  match Allocate st w h with
  | Some (st', _, _) => st'
  | None => st
  end.

(** The 256 x 256 atlas with room for four slices after two requests that
    each fill a slice: two slices exist, the texture still has one layer. *)
Definition atlas_256_two_slices : @DynamicTextureAtlasImpl ShelfManager :=
  after_Allocate (after_Allocate (atlas_256 4) 256 256) 256 256.

From stdpp Require Import sorting.

Local Open Scope Z_scope.

(** ** Handles alive over a history of the atlas *)

Section Histories.
Context {RM : RegionManager}.

(** What [Free] takes off the allocated area for a handle (line 371). *)
Definition requested_area (hd : TextureAtlasSuballocationImpl) : Z :=
  fst (m_Size hd) * snd (m_Size hd).

(** What [Free] takes off the used area for a handle (line 372). *)
Definition reserved_area (hd : TextureAtlasSuballocationImpl) : Z :=
  wrap32 (Region.width (m_Subregion hd) * m_Alignment hd)
  * wrap32 (Region.height (m_Subregion hd) * m_Alignment hd).

Fixpoint total (f : TextureAtlasSuballocationImpl -> Z)
    (hs : list TextureAtlasSuballocationImpl) : Z :=
  match hs with
  | [] => 0
  | hd :: hs' => f hd + total f hs'
  end.

(** [history st0 hs st]: the atlas went from [st0] to [st] by calls that
    returned, and [hs] are the handles handed out on the way and not yet
    destroyed; each handle is destroyed at most once. *)
Inductive history (st0 : DynamicTextureAtlasImpl)
    : list TextureAtlasSuballocationImpl -> DynamicTextureAtlasImpl -> Prop :=
| history_start : history st0 [] st0
| history_Allocate hs st w h st' hd tr :
    history st0 hs st ->
    Allocate st w h = Some (st', Some hd, tr) ->
    history st0 (hd :: hs) st'
| history_Allocate_failed hs st w h st' tr :
    history st0 hs st ->
    Allocate st w h = Some (st', None, tr) ->
    history st0 hs st'
| history_destroy hs1 hd hs2 st st' :
    history st0 (hs1 ++ hd :: hs2) st ->
    destroy st hd = Some st' ->
    history st0 (hs1 ++ hs2) st'
| history_GetTexture hs st pDevice pContext st' tex tr :
    history st0 hs st ->
    GetTexture st pDevice pContext = Some (st', tex, tr) ->
    history st0 hs st'.

(** Every slice listed under an alignment has a manager that was built for
    the grid of that alignment (line 325) and has since only seen its own
    allocations and frees. *)
Definition grid_inv (st : DynamicTextureAtlasImpl) : Prop :=
  forall a l i, m_AlignmentToSlice st !! a = Some l -> i ∈ l ->
    exists mgr, m_Slices st !! Z.to_nat i = Some (Some mgr)
      /\ mgr_evolves (Mgr_new (Width (m_Desc st) / a) (Height (m_Desc st) / a)) mgr.

(** Every bucket lists its slices in strictly increasing order, which is
    what the search of line 302 relies on. *)
Definition sorted_inv (st : DynamicTextureAtlasImpl) : Prop :=
  forall a l, m_AlignmentToSlice st !! a = Some l -> StronglySorted Z.lt l.

End Histories.

(** ** More example atlases *)

(** An atlas with no slice to start from whose capacity is to double. *)
Definition info_empty : DynamicTextureAtlasCreateInfo :=
  {| Desc := desc_256 0; MinAlignment := 0; ExtraSliceCount := 0;
     MaxSliceCount := 4 |}.

Definition atlas_empty : @DynamicTextureAtlasImpl ShelfManager :=
  {| m_Desc := desc_256 0; m_MinAlignment := 0; m_ExtraSliceCount := 0;
     m_MaxSliceCount := 4;
     m_pTexture := None; m_Version := 0;
     m_AllocationCount := 0; m_AllocatedArea := 0; m_UsedArea := 0;
     m_Slices := []; m_AlignmentToSlice := ∅; m_NextUnusedSlice := 0 |}.

(** The largest atlas 32 bits allow, with minimum alignment 1. *)
Definition desc_huge : TextureDesc :=
  {| Type_ := RESOURCE_DIM_TEX_2D; Width := 4294967295; Height := 4294967295;
     ArraySize := 1; MipLevels := 1; Format := TEX_FORMAT_KNOWN 1 |}.

Definition atlas_huge : @DynamicTextureAtlasImpl ShelfManager :=
  {| m_Desc := desc_huge; m_MinAlignment := 1; m_ExtraSliceCount := 1;
     m_MaxSliceCount := 1;
     m_pTexture := good_device desc_huge; m_Version := 0;
     m_AllocationCount := 0; m_AllocatedArea := 0; m_UsedArea := 0;
     m_Slices := [None]; m_AlignmentToSlice := ∅; m_NextUnusedSlice := 0 |}.

(** The 256 x 256 atlas built without a device: two slices, no texture. *)
Definition info_256_two_layers : DynamicTextureAtlasCreateInfo :=
  {| Desc := desc_256 2; MinAlignment := 0; ExtraSliceCount := 1;
     MaxSliceCount := 4 |}.

(** * Properties *)

(** ** Facts about the machine integers *)

Lemma wrap32_small z : is_uint32 z -> wrap32 z = z.
Proof. unfold is_uint32, wrap32. intros ?. apply Z.mod_small. lia. Qed.

Lemma wrap32_range z : is_uint32 (wrap32 z).
Proof. unfold is_uint32, wrap32. apply Z.mod_pos_bound. lia. Qed.

Lemma wrap_s64_small z : is_int64 z -> wrap_s64 z = z.
Proof.
  unfold is_int64, wrap_s64. intros ?.
  rewrite Z.mod_small by lia. lia.
Qed.

Lemma wrap_s64_range z : is_int64 (wrap_s64 z).
Proof.
  unfold is_int64, wrap_s64.
  pose proof (Z.mod_pos_bound (z + 2 ^ 63) (2 ^ 64)). lia.
Qed.

Lemma wrap_s32_small z : is_int32 z -> wrap_s32 z = z.
Proof.
  unfold is_int32, wrap_s32. intros ?.
  rewrite Z.mod_small by lia. lia.
Qed.

Lemma wrap_s32_range z : is_int32 (wrap_s32 z).
Proof.
  unfold is_int32, wrap_s32.
  pose proof (Z.mod_pos_bound (z + 2 ^ 31) (2 ^ 32)). lia.
Qed.

(** Adding a quantity and then its opposite, each with wrap-around, gives
    the counter back. *)
Lemma wrap_s64_add_sub c a b :
  is_int64 c -> (a + b) mod 2 ^ 64 = 0 ->
  wrap_s64 (wrap_s64 (c + a) + b) = c.
Proof.
  intros Hc Hab. unfold wrap_s64.
  replace (((c + a + 2 ^ 63) mod 2 ^ 64 - 2 ^ 63 + b + 2 ^ 63))
    with ((c + a + 2 ^ 63) mod 2 ^ 64 + b) by lia.
  rewrite Zplus_mod_idemp_l.
  replace (c + a + 2 ^ 63 + b) with ((c + 2 ^ 63) + (a + b)) by lia.
  rewrite <- Zplus_mod_idemp_r, Hab, Z.add_0_r.
  unfold is_int64 in Hc. rewrite Z.mod_small by lia. lia.
Qed.

Lemma wrap_s32_add_sub c a b :
  is_int32 c -> (a + b) mod 2 ^ 32 = 0 ->
  wrap_s32 (wrap_s32 (c + a) + b) = c.
Proof.
  intros Hc Hab. unfold wrap_s32.
  replace (((c + a + 2 ^ 31) mod 2 ^ 32 - 2 ^ 31 + b + 2 ^ 31))
    with ((c + a + 2 ^ 31) mod 2 ^ 32 + b) by lia.
  rewrite Zplus_mod_idemp_l.
  replace (c + a + 2 ^ 31 + b) with ((c + 2 ^ 31) + (a + b)) by lia.
  rewrite <- Zplus_mod_idemp_r, Hab, Z.add_0_r.
  unfold is_int32 in Hc. rewrite Z.mod_small by lia. lia.
Qed.

Lemma wrap_s64_cancel v : (wrap_s64 v + wrap_s64 (- v)) mod 2 ^ 64 = 0.
Proof.
  unfold wrap_s64.
  replace ((v + 2 ^ 63) mod 2 ^ 64 - 2 ^ 63 + ((- v + 2 ^ 63) mod 2 ^ 64 - 2 ^ 63))
    with ((v + 2 ^ 63) mod 2 ^ 64 + (- v + 2 ^ 63) mod 2 ^ 64 + (-1) * 2 ^ 64)
    by lia.
  rewrite Z_mod_plus_full, <- Zplus_mod.
  replace (v + 2 ^ 63 + (- v + 2 ^ 63)) with (1 * 2 ^ 64) by lia.
  apply Z_mod_mult.
Qed.

Lemma AlignUp_multiple v a : a <> 0 -> AlignUp v a / a * a = AlignUp v a.
Proof.
  intros Ha. unfold AlignUp. rewrite Z.div_mul by done. reflexivity.
Qed.

Lemma AlignUp_range v a : 0 < a -> is_uint32 (AlignUp v a).
Proof.
  intros Ha. unfold AlignUp.
  pose proof (wrap32_range (v + (a - 1))) as Hr. unfold is_uint32 in *.
  pose proof (Z.mul_div_le (wrap32 (v + (a - 1))) a Ha).
  pose proof (Z.div_pos (wrap32 (v + (a - 1))) a).
  nia.
Qed.

(** For a power of two, rounding up by division is clearing the low bits of
    the 32-bit sum. *)
Lemma AlignUp_mask v k :
  0 <= k ->
  AlignUp v (2 ^ k) = Z.land (wrap32 (v + (2 ^ k - 1))) (Z.lnot (2 ^ k - 1)).
Proof.
  intros Hk. unfold AlignUp.
  set (s := wrap32 (v + (2 ^ k - 1))).
  replace (2 ^ k - 1) with (Z.ones k) by (rewrite Z.ones_equiv; lia).
  rewrite <- Z.ldiff_land, Z.ldiff_ones_r by done.
  by rewrite Z.shiftr_div_pow2, Z.shiftl_mul_pow2.
Qed.

(** ** The alignment loop *)

Lemma align_loop_zero fuel m : 0 < m -> align_loop fuel m 0 = None.
Proof.
  intros Hm. induction fuel as [|fuel IH]; simpl.
  - destruct (Z.gtb_spec m 0); [done | lia].
  - destruct (Z.gtb_spec m 0); [exact IH | lia].
Qed.

Lemma align_loop_stuck k : forall m a,
  is_uint32 a -> (2 ^ Z.of_nat k * a) mod 2 ^ 32 = 0 ->
  align_loop (S k) m a = None ->
  forall fuel, align_loop fuel m a = None.
Proof.
  induction k as [|k IH]; intros m a Ha Hz Hnone fuel.
  - change (2 ^ Z.of_nat 0) with 1 in Hz. rewrite Z.mul_1_l in Hz.
    unfold is_uint32 in Ha. rewrite Z.mod_small in Hz by lia. subst a.
    simpl in Hnone. destruct (Z.gtb_spec m 0); [|done].
    by apply align_loop_zero.
  - cbn [align_loop] in Hnone. cbn [align_loop].
    destruct (Z.gtb_spec m a) as [Hgt|]; [|done].
    assert (Hnext : forall f, align_loop f m (wrap32 (a * 2)) = None).
    { apply IH; [apply wrap32_range | | exact Hnone].
      unfold wrap32. rewrite Z.mul_mod_idemp_r by lia.
      rewrite <- Hz. f_equal. rewrite Nat2Z.inj_succ, Z.pow_succ_r by lia. lia. }
    destruct fuel as [|fuel]; simpl;
      destruct (Z.gtb_spec m a); try lia; [done | apply Hnext].
Qed.

(** The fuel of [resolve_alignment] is enough: a run that has not left the
    loop after [align_fuel] rounds never leaves it. *)
Lemma align_loop_fuel_enough m a :
  is_uint32 a -> align_loop align_fuel m a = None ->
  forall fuel, align_loop fuel m a = None.
Proof.
  intros Ha. apply (align_loop_stuck 32); [done|].
  rewrite Z.mul_comm. change (2 ^ Z.of_nat 32) with (2 ^ 32).
  apply Z.mod_mul. lia.
Qed.

(** ** Alignment resolution against the rule of the specification *)

Lemma align_loop_more_fuel k : forall k' m a r,
  align_loop k m a = Some r -> (k <= k')%nat -> align_loop k' m a = Some r.
Proof.
  induction k as [|k IH]; intros k' m a r Hr Hle; simpl in Hr.
  - destruct (Z.gtb_spec m a); [done|].
    destruct k'; simpl; destruct (Z.gtb_spec m a); done || lia.
  - destruct (Z.gtb_spec m a) as [Hgt|Hngt].
    + destruct k' as [|k']; [lia|]. simpl.
      destruct (Z.gtb_spec m a); [|lia]. apply IH; [done | lia].
    + destruct k'; simpl; destruct (Z.gtb_spec m a); done || lia.
Qed.

(** While no doubling overflows, the 32-bit loop and the rule over the
    integers walk the same values. *)
Lemma align_loop_spec k : forall m a,
  0 < a -> m <= 2 ^ 31 -> m <= a * 2 ^ Z.of_nat k ->
  align_loop k m a = Some (spec_double_while k m a).
Proof.
  induction k as [|k IH]; intros m a Ha Hm Hk.
  - simpl in *. destruct (Z.gtb_spec m a); [lia | done].
  - cbn [align_loop spec_double_while].
    destruct (Z.gtb_spec m a) as [Hgt|Hngt], (Z.ltb_spec a m); try lia; [|done].
    rewrite wrap32_small by (unfold is_uint32; lia).
    apply IH; [lia | done |].
    rewrite Nat2Z.inj_succ, Z.pow_succ_r in Hk by lia. lia.
Qed.

Lemma spec_double_while_fuel k : forall k' m a,
  0 < a -> m <= a * 2 ^ Z.of_nat k -> m <= a * 2 ^ Z.of_nat k' ->
  spec_double_while k m a = spec_double_while k' m a.
Proof.
  induction k as [|k IH]; intros k' m a Ha Hk Hk'.
  - simpl in Hk. destruct k'; simpl; [done|].
    destruct (Z.ltb_spec a m); [lia | done].
  - destruct k' as [|k'].
    + simpl in Hk'. simpl. destruct (Z.ltb_spec a m); [lia | done].
    + simpl. destruct (Z.ltb_spec a m); [|done].
      rewrite Nat2Z.inj_succ, Z.pow_succ_r in Hk, Hk' by lia.
      apply IH; lia.
Qed.

Lemma spec_fuel_enough m a : 0 < a -> m <= a * 2 ^ Z.of_nat (Z.to_nat m).
Proof.
  intros Ha. destruct (Z.le_gt_cases m 0) as [|Hpos].
  - pose proof (Z.pow_nonneg 2 (Z.of_nat (Z.to_nat m))). nia.
  - rewrite Z2Nat.id by lia.
    pose proof (Z.pow_gt_lin_r 2 m). nia.
Qed.

(** What the doubling loop of the source computes when the minimum
    alignment is set. *)
Lemma resolve_alignment_nonzero MinAlign w h :
  0 < MinAlign -> Z.min w h <= 2 ^ 31 ->
  resolve_alignment MinAlign w h = Some (spec_alignment MinAlign w h).
Proof.
  intros Ha Hm. unfold resolve_alignment, spec_alignment.
  destruct (Z.gtb_spec MinAlign 0); [|lia].
  destruct (Z.eqb_spec MinAlign 0); [lia|].
  set (m := Z.min w h) in *.
  assert (H31 : m <= MinAlign * 2 ^ Z.of_nat 31).
  { change (2 ^ Z.of_nat 31) with (2 ^ 31). nia. }
  rewrite (spec_double_while_fuel (Z.to_nat m) 31 m MinAlign);
    [| done | by apply spec_fuel_enough | done].
  apply (align_loop_more_fuel 31); [|unfold align_fuel; lia].
  by apply align_loop_spec.
Qed.

(** With no minimum alignment the source takes alignment 1 and does not
    double. *)
Lemma resolve_alignment_unset w h : resolve_alignment 0 w h = Some 1.
Proof. reflexivity. Qed.

Lemma align_loop_reaches k : forall m b a,
  0 < m -> align_loop k m b = Some a -> m <= a.
Proof.
  induction k as [|k IH]; intros m b a Hm; simpl;
    destruct (Z.gtb_spec m b); try done; try (intros [= <-]; lia).
  by apply IH.
Qed.

Lemma align_loop_pos k m b a :
  0 < b -> align_loop k m b = Some a -> 0 < a.
Proof.
  intros Hb Hloop. destruct (Z.le_gt_cases m b) as [Hle|Hgt].
  - destruct k; simpl in Hloop; destruct (Z.gtb_spec m b); try lia;
      injection Hloop as <-; done.
  - apply align_loop_reaches in Hloop; lia.
Qed.

(** Whatever the request, a resolved alignment is positive. *)
Lemma resolve_alignment_pos MinAlign w h a :
  resolve_alignment MinAlign w h = Some a -> 0 < a.
Proof.
  unfold resolve_alignment.
  destruct (Z.gtb_spec MinAlign 0) as [Hpos|]; [|intros [= <-]; lia].
  by apply align_loop_pos.
Qed.

(** ** The guards of Allocate, and Free in a release build *)

Section Guards.
Context {RM : RegionManager}.


(** C5: a request wider or higher than the atlas always returns, hands out
    no handle and leaves the atlas (and so the three usage counters) exactly
    as it was.  When both dimensions are nonzero it is reported, without
    stopping the program, by the error message of line 268 and nothing
    else; when the other dimension is zero the zero-size guard of line 260
    returns first and nothing is reported. *)
Theorem Allocate_exceeds_atlas (st : DynamicTextureAtlasImpl) w h :
  w > Width (m_Desc st) \/ h > Height (m_Desc st) ->
  Allocate st w h =
    Some (st, None,
          if (w =? 0) || (h =? 0) then []
          else [EvLogError (MsgExceedsAtlasDimensions w h
                              (Width (m_Desc st)) (Height (m_Desc st)))])
  /\ forall st' oh tr, Allocate st w h = Some (st', oh, tr) ->
       oh = None /\ counters st' = counters st.
Proof.
  intros Hbig.
  assert (Heq : Allocate st w h =
    Some (st, None,
          if (w =? 0) || (h =? 0) then []
          else [EvLogError (MsgExceedsAtlasDimensions w h
                              (Width (m_Desc st)) (Height (m_Desc st)))])).
  { unfold Allocate. destruct ((w =? 0) || (h =? 0)); [done|].
    destruct (Z.gtb_spec w (Width (m_Desc st))),
             (Z.gtb_spec h (Height (m_Desc st))); simpl; done || lia. }
  split; [exact Heq|].
  intros st' oh tr Hal. rewrite Heq in Hal. by injection Hal as <- <- <-.
Qed.

Lemma Free_live (st : DynamicTextureAtlasImpl) Slice Alignment Subregion w h mgr :
  m_Slices st !! Z.to_nat Slice = Some (Some mgr) ->
  Free st Slice Alignment Subregion w h =
    Some (set_slices
            (set_counters st
               (wrap_s32 (m_AllocationCount st + -1))
               (wrap_s64 (m_AllocatedArea st + wrap_s64 (- w * h)))
               (wrap_s64 (m_UsedArea st
                  + wrap_s64 (- wrap32 (Region.width Subregion * Alignment)
                              * wrap32 (Region.height Subregion * Alignment)))))
            (<[Z.to_nat Slice := Some (Mgr_Free mgr Subregion)]> (m_Slices st))).
Proof. intros Hs. unfold Free. simpl. by rewrite Hs. Qed.




End Guards.

(** ** Construction *)

Section Construction.
Context {RM : RegionManager}.

Lemma validate_spec (CreateInfo : DynamicTextureAtlasCreateInfo) :
  validate (Desc CreateInfo) (MinAlignment CreateInfo) <> None
  <-> spec_config_invalid CreateInfo.
Proof.
  unfold validate, spec_config_invalid.
  destruct CreateInfo as [[ty W H n mips fmt] a extra maxs]; simpl.
  destruct ty, fmt; simpl;
    try (split; [intros _ | done]; intuition congruence).
  all: destruct (Z.eqb_spec W 0); [split; [intros _ | done]; tauto|].
  all: destruct (Z.eqb_spec H 0); [split; [intros _ | done]; tauto|].
  all: destruct (Z.eqb_spec a 0); simpl; [split; [done | intuition congruence]|].
  all: destruct (IsPowerOfTwo a); simpl; [|split; [intros _ | done]; tauto].
  all: destruct (Z.eqb_spec (W mod a) 0); simpl;
         [|split; [intros _ | done]; tauto].
  all: destruct (Z.eqb_spec (H mod a) 0); simpl;
         [|split; [intros _ | done]; tauto].
  all: split; [done | intuition congruence].
Qed.

(** C7, with the case the claim leaves out: construction fails exactly when
    the configuration is one the specification lists as invalid, or a
    device is given, the array size is not zero, and the device fails to
    create the initial texture (line 189). *)
Theorem construction_fails_iff (pDevice : option IRenderDevice)
    (CreateInfo : DynamicTextureAtlasCreateInfo) :
  CreateDynamicTextureAtlas pDevice CreateInfo = None
  <-> spec_config_invalid CreateInfo
      \/ exists dev, pDevice = Some dev
           /\ ArraySize (Desc CreateInfo) > 0
           /\ dev (Desc CreateInfo) = None.
Proof.
  rewrite <- validate_spec.
  unfold CreateDynamicTextureAtlas, construct.
  destruct (validate (Desc CreateInfo) (MinAlignment CreateInfo)) as [e|].
  { split; [intros _; by left | done]. }
  destruct pDevice as [dev|].
  - destruct (Z.gtb_spec (ArraySize (Desc CreateInfo)) 0) as [Hpos|Hz].
    + destruct (dev (Desc CreateInfo)) as [tex|] eqn:Hdev.
      * split; [done|]. intros [?|(dev' & [= <-] & _ & Hnone)]; [done|congruence].
      * split; [|done]. intros _. right. exists dev. split_and!; [done | lia | done].
    + split; [done|]. intros [?|(dev' & _ & Hp & _)]; [done|lia].
  - split; [done|]. intros [?|(dev' & ? & _)]; done.
Qed.

Lemma construct_inv pDevice CreateInfo (st : DynamicTextureAtlasImpl) :
  well_typed CreateInfo ->
  construct pDevice CreateInfo = inr st -> atlas_inv st.
Proof.
  intros (HW & HH & Hn & Ha & He & Hm) Hc.
  unfold is_uint32 in *.
  assert (Hmax : 0 <= max_slice_count CreateInfo <= 2048).
  { unfold max_slice_count. destruct (Type_ (Desc CreateInfo)); lia. }
  assert (Hshape : m_MaxSliceCount st = max_slice_count CreateInfo
            /\ m_ExtraSliceCount st = ExtraSliceCount CreateInfo
            /\ m_NextUnusedSlice st = 0
            /\ m_Slices st = replicate (Z.to_nat (ArraySize (Desc CreateInfo))) None
            /\ m_AlignmentToSlice st = ∅
            /\ m_Version st = 0
            /\ counters st = (0, 0, 0)
            /\ (ArraySize (m_Desc st) = 0
                \/ ArraySize (m_Desc st) = ArraySize (Desc CreateInfo))).
  { unfold construct in Hc.
    destruct (validate _ _); [done|].
    destruct pDevice as [dev|].
    - destruct (ArraySize (Desc CreateInfo) >? 0).
      + destruct (dev (Desc CreateInfo)); [|done].
        injection Hc as <-. simpl. tauto.
      + injection Hc as <-. simpl. tauto.
    - injection Hc as <-. simpl. tauto. }
  destruct Hshape as (Emax & Eextra & Enext & Eslices & Ebuckets & Ever & Ecnt & Earr).
  unfold counters in Ecnt. injection Ecnt as Ea Eu Ec.
  assert (Hlen : Z.of_nat (length (m_Slices st)) = ArraySize (Desc CreateInfo)).
  { rewrite Eslices, length_replicate. lia. }
  split.
  - split; rewrite ?Emax, ?Eextra, ?Enext, ?Ebuckets; try done; try lia.
    + intros k mgr Hk. rewrite Eslices in Hk.
      apply lookup_replicate in Hk as [? _]. done.
  - lia.
  - lia.
  - rewrite Ec. unfold is_int32. lia.
  - rewrite Ea. unfold is_int64. lia.
  - rewrite Eu. unfold is_int64. lia.
Qed.

End Construction.

(** ** The guarded data only grows *)

Section Structure.
Context {RM : RegionManager}.
Implicit Types st : DynamicTextureAtlasImpl.

Lemma mgr_evolves_refl (m : Mgr) : mgr_evolves m m.
Proof. apply rtc_refl. Qed.

Lemma mgr_evolves_step (m m' : Mgr) : mgr_op m m' -> mgr_evolves m m'.
Proof. apply rtc_once. Qed.

Lemma structure_le_refl st : structure_le st st.
Proof.
  split; try done.
  - intros k mgr Hk. exists mgr. split; [done | apply mgr_evolves_refl].
  - intros a l Hl. exists []. by rewrite app_nil_r.
Qed.

Lemma structure_le_trans st1 st2 st3 :
  structure_le st1 st2 -> structure_le st2 st3 -> structure_le st1 st3.
Proof.
  intros [] []. split; try congruence; try lia.
  - intros k mgr Hk.
    destruct (le_slices0 k mgr Hk) as (mgr' & Hk' & Hev).
    destruct (le_slices1 k mgr' Hk') as (mgr'' & Hk'' & Hev').
    exists mgr''. split; [done|]. by etrans.
  - intros a l Hl.
    destruct (le_buckets0 a l Hl) as (l' & Hl').
    destruct (le_buckets1 a _ Hl') as (l'' & Hl'').
    exists (l' ++ l''). by rewrite app_assoc.
Qed.

(** Both relations only read the guarded data and the configuration. *)
Lemma struct_inv_ext st st' :
  m_MaxSliceCount st' = m_MaxSliceCount st ->
  m_ExtraSliceCount st' = m_ExtraSliceCount st ->
  m_NextUnusedSlice st' = m_NextUnusedSlice st ->
  m_Slices st' = m_Slices st ->
  m_AlignmentToSlice st' = m_AlignmentToSlice st ->
  struct_inv st -> struct_inv st'.
Proof.
  intros E1 E2 E3 E4 E5 []. split; rewrite ?E1, ?E2, ?E3, ?E4, ?E5; done.
Qed.

Lemma structure_le_ext st st' :
  m_MaxSliceCount st' = m_MaxSliceCount st ->
  m_ExtraSliceCount st' = m_ExtraSliceCount st ->
  m_MinAlignment st' = m_MinAlignment st ->
  m_NextUnusedSlice st' = m_NextUnusedSlice st ->
  m_Slices st' = m_Slices st ->
  m_AlignmentToSlice st' = m_AlignmentToSlice st ->
  structure_le st st'.
Proof.
  intros E1 E2 E3 E4 E5 E6. split; rewrite ?E4, ?E5, ?E6; try done.
  - intros k mgr Hk. exists mgr. split; [done | apply mgr_evolves_refl].
  - intros a l Hl. exists []. by rewrite app_nil_r.
Qed.

(** A live manager is replaced by what an operation on it left. *)
Lemma struct_inv_update st (k : nat) mgr mgr' :
  m_Slices st !! k = Some (Some mgr) ->
  struct_inv st ->
  struct_inv (set_slices st (<[k := Some mgr']> (m_Slices st))).
Proof.
  intros Hk []. split; simpl; rewrite ?length_insert; try done.
  - intros i Hi. destruct (inv_live0 i Hi) as (m & Hm).
    destruct (decide (k = Z.to_nat i)) as [->|Hne].
    + exists mgr'. apply list_lookup_insert_eq. by eapply lookup_lt_Some.
    + exists m. by rewrite list_lookup_insert_ne.
  - intros j m Hj. destruct (decide (k = j)) as [->|Hne].
    + by eapply inv_fresh0.
    + rewrite list_lookup_insert_ne in Hj by done. by eapply inv_fresh0.
Qed.

Lemma structure_le_update st (k : nat) mgr mgr' :
  m_Slices st !! k = Some (Some mgr) ->
  mgr_op mgr mgr' ->
  structure_le st (set_slices st (<[k := Some mgr']> (m_Slices st))).
Proof.
  intros Hk Hop. split; simpl; rewrite ?length_insert; try done.
  - intros j m Hj. destruct (decide (k = j)) as [->|Hne].
    + exists mgr'. split.
      * apply list_lookup_insert_eq. by eapply lookup_lt_Some.
      * rewrite Hk in Hj. injection Hj as <-. by apply mgr_evolves_step.
    + exists m. rewrite list_lookup_insert_ne by done.
      split; [done | apply mgr_evolves_refl].
  - intros a l Hl. exists []. by rewrite app_nil_r.
Qed.

(** *** Free *)

Lemma Free_Some st Slice Alignment Subregion w h st' :
  Free st Slice Alignment Subregion w h = Some st' ->
  exists mgr, m_Slices st !! Z.to_nat Slice = Some (Some mgr)
    /\ st' = set_slices
               (set_counters st
                  (wrap_s32 (m_AllocationCount st + -1))
                  (wrap_s64 (m_AllocatedArea st + wrap_s64 (- w * h)))
                  (wrap_s64 (m_UsedArea st
                     + wrap_s64 (- wrap32 (Region.width Subregion * Alignment)
                                 * wrap32 (Region.height Subregion * Alignment)))))
               (<[Z.to_nat Slice := Some (Mgr_Free mgr Subregion)]> (m_Slices st)).
Proof.
  unfold Free. simpl.
  destruct (m_Slices st !! Z.to_nat Slice) as [[mgr|]|] eqn:Hs; try done.
  intros [= <-]. by exists mgr.
Qed.

Lemma Free_structure_le st Slice Alignment Subregion w h st' :
  Free st Slice Alignment Subregion w h = Some st' -> structure_le st st'.
Proof.
  intros (mgr & Hs & ->)%Free_Some.
  eapply (structure_le_trans _ (set_counters st _ _ _)).
  - by apply structure_le_ext.
  - apply (structure_le_update (set_counters st _ _ _) (Z.to_nat Slice) mgr);
      [done | by eapply mgr_op_Free].
Qed.

Lemma Free_inv st Slice Alignment Subregion w h st' :
  atlas_inv st ->
  Free st Slice Alignment Subregion w h = Some st' -> atlas_inv st'.
Proof.
  intros [] (mgr & Hs & ->)%Free_Some. split; simpl;
    rewrite ?length_insert; try done;
    try apply wrap_s32_range; try apply wrap_s64_range.
  apply (struct_inv_update (set_counters st _ _ _) (Z.to_nat Slice) mgr); [done|].
  by eapply struct_inv_ext; [..|exact inv_struct0].
Qed.

(** *** GetTexture *)

Lemma count_replacements_copies (l : list CopyTextureAttribs) :
  count_replacements (map EvCopyTexture l) = 0%nat.
Proof. unfold count_replacements. induction l; simpl; done. Qed.

Lemma GetTexture_no_growth st pDevice pContext :
  ArraySize (m_Desc st) = wrap32 (Z.of_nat (length (m_Slices st))) ->
  GetTexture st pDevice pContext = Some (st, m_pTexture st, []).
Proof.
  intros He. unfold GetTexture. rewrite <- He, Z.eqb_refl. done.
Qed.

Lemma GetTexture_growth st dev ctx :
  ArraySize (m_Desc st) <> wrap32 (Z.of_nat (length (m_Slices st))) ->
  exists copies,
    GetTexture st (Some dev) (Some ctx) =
      Some (set_texture st
              (set_ArraySize (m_Desc st) (wrap32 (Z.of_nat (length (m_Slices st)))))
              (dev (set_ArraySize (m_Desc st) (wrap32 (Z.of_nat (length (m_Slices st))))))
              (wrap32 (m_Version st + 1)),
            dev (set_ArraySize (m_Desc st) (wrap32 (Z.of_nat (length (m_Slices st))))),
            EvCreateTexture (set_ArraySize (m_Desc st) (wrap32 (Z.of_nat (length (m_Slices st)))))
            :: EvLogInfo (MsgExpandingTextureArray
                            (wrap32 (Z.of_nat (length (m_Slices st))))
                            (wrap32 (m_Version st + 1)))
            :: map EvCopyTexture copies).
Proof.
  intros Hne. unfold GetTexture.
  destruct (Z.eqb_spec (ArraySize (m_Desc st))
              (wrap32 (Z.of_nat (length (m_Slices st))))); [done|]. simpl.
  match goal with |- context [match ?c with [] => _ | _ :: _ => _ end] =>
    exists c; destruct c end; done.
Qed.

Lemma GetTexture_Some st pDevice pContext st' tex tr :
  GetTexture st pDevice pContext = Some (st', tex, tr) ->
  st' = st
  \/ ArraySize (m_Desc st) <> wrap32 (Z.of_nat (length (m_Slices st)))
     /\ exists desc t,
          st' = set_texture st
                  (set_ArraySize desc (wrap32 (Z.of_nat (length (m_Slices st)))))
                  t (wrap32 (m_Version st + 1)).
Proof.
  unfold GetTexture.
  destruct (Z.eqb_spec (ArraySize (m_Desc st))
              (wrap32 (Z.of_nat (length (m_Slices st))))); simpl.
  { intros [= <- _ _]. by left. }
  destruct pDevice as [dev|]; [|done].
  match goal with |- context [match ?c with [] => _ | _ :: _ => _ end] =>
    destruct c end; [|destruct pContext];
    try done; intros [= <- _ _]; right; (split; [done|]); eauto.
Qed.

Lemma GetTexture_structure_le st pDevice pContext st' tex tr :
  GetTexture st pDevice pContext = Some (st', tex, tr) -> structure_le st st'.
Proof.
  intros [->|(_ & desc & t & ->)]%GetTexture_Some.
  - apply structure_le_refl.
  - by apply structure_le_ext.
Qed.

Lemma GetTexture_inv st pDevice pContext st' tex tr :
  atlas_inv st ->
  GetTexture st pDevice pContext = Some (st', tex, tr) -> atlas_inv st'.
Proof.
  intros Hinv [->|(Hne & desc & t & ->)]%GetTexture_Some; [done|].
  destruct Hinv as [Hs [] [] ? ? ?]. pose proof (inv_len _ Hs) as Hlen.
  rewrite wrap32_small in * by (unfold is_uint32; lia).
  split; simpl; try done.
  - by eapply struct_inv_ext; [..|exact Hs].
  - lia.
  - rewrite wrap32_small by (unfold is_uint32; lia). lia.
Qed.

(** C6: in a state the atlas can reach, a call that finds more slices than
    the texture has layers asks the device for a new texture exactly once,
    stores what the device returned as the atlas texture, and leaves the
    version one higher; a call that finds as many slices as layers changes
    nothing, whatever device and context it is given. *)
Theorem GetTexture_replaces_once st dev ctx :
  atlas_inv st ->
  (ArraySize (m_Desc st) < Z.of_nat (length (m_Slices st)) ->
     exists st' tex tr,
       GetTexture st (Some dev) (Some ctx) = Some (st', tex, tr)
       /\ count_replacements tr = 1%nat
       /\ tex = dev (set_ArraySize (m_Desc st) (Z.of_nat (length (m_Slices st))))
       /\ m_pTexture st' = tex
       /\ ArraySize (m_Desc st') = Z.of_nat (length (m_Slices st'))
       /\ GetVersion st' = GetVersion st + 1)
  /\ (ArraySize (m_Desc st) = Z.of_nat (length (m_Slices st)) ->
      forall pDevice pContext,
        GetTexture st pDevice pContext = Some (st, m_pTexture st, [])).
Proof.
  intros [Hs [] [] ? ? ?]. pose proof (inv_len _ Hs) as Hlen.
  assert (Hw : wrap32 (Z.of_nat (length (m_Slices st)))
               = Z.of_nat (length (m_Slices st))).
  { apply wrap32_small. unfold is_uint32. lia. }
  split.
  - intros Hgrow.
    destruct (GetTexture_growth st dev ctx) as (copies & Hg); [lia|].
    rewrite Hw in Hg. do 3 eexists. split; [exact Hg|].
    split; [|split; [done|split; [done|split; [done|]]]].
    + unfold count_replacements. simpl.
      apply (f_equal S), count_replacements_copies.
    + unfold GetVersion. simpl. apply wrap32_small. unfold is_uint32. lia.
  - intros He pDevice pContext. apply GetTexture_no_growth. lia.
Qed.

End Structure.

(** ** Growing the slice collection (lines 311-318) *)

Section Resize.
Context {RM : RegionManager}.

Lemma find_next_slice_Some (l : list Z) Slice s :
  find_next_slice l Slice = Some s -> s ∈ l /\ Slice <= s.
Proof.
  induction l as [|x l IH]; simpl; [done|].
  destruct (Z.gtb_spec Slice x).
  - intros [? ?]%IH. split; [by right | done].
  - intros [= <-]. split; [by left | lia].
Qed.

Lemma resize_slices_done fuel Slice Extra MaxSlices (slices : list (option Mgr)) :
  Slice < Z.of_nat (length slices) ->
  resize_slices fuel Slice Extra MaxSlices slices = Some slices.
Proof.
  intros Hlt. destruct fuel; simpl;
    destruct (Z.geb_spec Slice (Z.of_nat (length slices))); done || lia.
Qed.

(** Once a round leaves the collection no longer than [Slice], with a fixed
    increment, every later round does the same. *)
Lemma resize_slices_stuck_extra fuel : forall Slice Extra MaxSlices
    (slices : list (option Mgr)),
  Extra <> 0 ->
  Z.min (wrap32 (Slice + Extra)) MaxSlices <= Slice ->
  Z.of_nat (length slices) <= Slice ->
  resize_slices fuel Slice Extra MaxSlices slices = None.
Proof.
  induction fuel as [|fuel IH]; intros Slice Extra MaxSlices slices He Hk Hlen;
    simpl; destruct (Z.geb_spec Slice (Z.of_nat (length slices))); try lia; [done|].
  destruct (Z.eqb_spec Extra 0); [done|]. simpl.
  apply IH; [done | done |]. rewrite length_resize. lia.
Qed.

(** With the doubling rule an empty collection stays empty. *)
Lemma resize_slices_stuck_empty fuel : forall MaxSlices (slices : list (option Mgr)),
  0 <= MaxSlices -> length slices = 0%nat ->
  resize_slices fuel 0 0 MaxSlices slices = None.
Proof.
  induction fuel as [|fuel IH]; intros MaxSlices slices Hm Hlen;
    simpl; rewrite Hlen; simpl; [done|].
  apply IH; [done|]. rewrite length_resize.
  change (wrap32 (0 + wrap32 (Z.of_nat 0))) with 0. lia.
Qed.

(** In a state of the invariant the inner loop, if it ends, ends after one
    round at most and has only added null entries. *)
Lemma resize_slices_inv fuel Slice Extra MaxSlices (slices slices' : list (option Mgr)) :
  0 <= Slice < MaxSlices -> MaxSlices <= 2048 -> is_uint32 Extra ->
  Slice <= Z.of_nat (length slices) -> Z.of_nat (length slices) < 2 ^ 32 ->
  resize_slices fuel Slice Extra MaxSlices slices = Some slices' ->
  exists k : nat,
    slices' = slices ++ replicate k None
    /\ Slice < Z.of_nat (length slices')
    /\ Z.of_nat (length slices') < 2 ^ 32.
Proof.
  intros HS Hmax HE Hle Hlen.
  destruct fuel as [|fuel]; simpl;
    destruct (Z.geb_spec Slice (Z.of_nat (length slices))) as [Hge|Hlt]; try done.
  1, 3: intros [= <-]; exists 0%nat; rewrite app_nil_r; split; [done | lia].
  assert (Hn : Z.of_nat (length slices) = Slice) by lia.
  set (extra := if negb (Extra =? 0) then Extra
                else wrap32 (Z.of_nat (length slices))).
  set (k := Z.min (wrap32 (Slice + extra)) MaxSlices).
  destruct (Z.le_gt_cases k Slice) as [Hstuck|Hgrow].
  - (* the round did not reach past [Slice]: the loop never ends *)
    intros Hres. exfalso. subst extra k.
    destruct (Z.eqb_spec Extra 0) as [->|Hnz]; simpl in *.
    + rewrite Hn in *. unfold is_uint32 in *.
      rewrite (wrap32_small Slice) in * by (unfold is_uint32; lia).
      rewrite wrap32_small in * by (unfold is_uint32; lia).
      assert (Slice = 0) as -> by lia.
      rewrite resize_slices_stuck_empty in Hres; [done | lia |].
      rewrite length_resize. lia.
    + rewrite resize_slices_stuck_extra in Hres; [done | done | done |].
      rewrite length_resize. lia.
  - assert (Hk : 0 <= k <= 2048) by lia.
    rewrite resize_ge by lia.
    rewrite resize_slices_done by (rewrite length_app, length_replicate; lia).
    intros [= <-]. exists (Z.to_nat k - length slices)%nat.
    rewrite length_app, length_replicate. split; [done | lia].
Qed.

(** The inner loop ends whenever a round can add a slice: the increment is
    set and the sum does not wrap, or the collection is not empty. *)
Lemma resize_slices_total fuel Slice Extra MaxSlices (slices : list (option Mgr)) :
  0 <= Slice < MaxSlices -> MaxSlices <= 2048 ->
  Slice <= Z.of_nat (length slices) -> Z.of_nat (length slices) < 2 ^ 32 ->
  (0 < Extra /\ Slice + Extra < 2 ^ 32) \/ (Extra = 0 /\ slices <> []) ->
  is_Some (resize_slices (S fuel) Slice Extra MaxSlices slices).
Proof.
  intros HS Hmax Hle Hlen Hgrow. simpl.
  destruct (Z.geb_spec Slice (Z.of_nat (length slices))) as [Hge|Hlt]; [|done].
  assert (Hn : Z.of_nat (length slices) = Slice) by lia.
  set (extra := if negb (Extra =? 0) then Extra
                else wrap32 (Z.of_nat (length slices))).
  assert (Hk : Slice < Z.min (wrap32 (Slice + extra)) MaxSlices <= 2048).
  { subst extra. destruct Hgrow as [[Hpos Hsum]|[-> Hne]].
    - destruct (Z.eqb_spec Extra 0); [lia|]. simpl.
      rewrite wrap32_small by (unfold is_uint32; lia). lia.
    - simpl. destruct slices; [done|]. simpl length in *.
      rewrite (wrap32_small (Z.of_nat _)) by (unfold is_uint32; lia).
      rewrite wrap32_small by (unfold is_uint32; lia). lia. }
  rewrite resize_ge by lia.
  rewrite resize_slices_done by (rewrite length_app, length_replicate; lia).
  done.
Qed.

(** The fuel of the inner loop is enough: in a state of the invariant, a
    run that has not ended within [resize_fuel] rounds never ends. *)
Lemma resize_slices_fuel_enough Slice Extra MaxSlices (slices : list (option Mgr)) :
  0 <= Slice < MaxSlices -> MaxSlices <= 2048 -> is_uint32 Extra ->
  Slice <= Z.of_nat (length slices) -> Z.of_nat (length slices) < 2 ^ 32 ->
  resize_slices resize_fuel Slice Extra MaxSlices slices = None ->
  forall fuel, resize_slices fuel Slice Extra MaxSlices slices = None.
Proof.
  intros HS Hmax HE Hle Hlen Hnone fuel.
  destruct (Z.lt_ge_cases Slice (Z.of_nat (length slices))) as [Hlt|Hge].
  { by rewrite resize_slices_done in Hnone. }
  assert (Hn : Z.of_nat (length slices) = Slice) by lia.
  destruct fuel as [|fuel]; simpl;
    destruct (Z.geb_spec Slice (Z.of_nat (length slices))); try lia; [done|].
  unfold resize_fuel in Hnone. simpl in Hnone.
  destruct (Z.geb_spec Slice (Z.of_nat (length slices))); [|lia].
  set (extra := if negb (Extra =? 0) then Extra
                else wrap32 (Z.of_nat (length slices))) in *.
  set (k := Z.min (wrap32 (Slice + extra)) MaxSlices) in *.
  destruct (Z.le_gt_cases k Slice) as [Hstuck|Hgrow].
  - subst extra k. destruct (Z.eqb_spec Extra 0) as [->|Hnz]; simpl in *.
    + rewrite Hn in *. unfold is_uint32 in *.
      rewrite (wrap32_small Slice) in * by (unfold is_uint32; lia).
      rewrite wrap32_small in * by (unfold is_uint32; lia).
      assert (Slice = 0) as -> by lia.
      apply resize_slices_stuck_empty; [lia|]. rewrite length_resize. lia.
    + apply resize_slices_stuck_extra; [done | done|].
      rewrite length_resize. lia.
  - rewrite resize_ge in Hnone by lia.
    rewrite length_app, length_replicate in Hnone.
    destruct (Z.geb_spec Slice
                (Z.of_nat (length slices + (Z.to_nat k - length slices))));
      [lia | done].
Qed.

End Resize.

(** ** Choosing and creating a slice (lines 292-331) *)

Section Select.
Context {RM : RegionManager}.
Implicit Types st : DynamicTextureAtlasImpl.

Lemma find_or_emplace_lookup a (B : gmap Z (list Z)) :
  exists l, find_or_emplace a B !! a = Some l
    /\ (B !! a = Some l \/ B !! a = None /\ l = []).
Proof.
  unfold find_or_emplace. destruct (B !! a) as [l|] eqn:Ha.
  - exists l. auto.
  - exists []. rewrite lookup_insert_eq. auto.
Qed.

Lemma find_or_emplace_keeps a (B : gmap Z (list Z)) b l :
  B !! b = Some l -> find_or_emplace a B !! b = Some l.
Proof.
  unfold find_or_emplace. destruct (B !! a) as [l'|] eqn:Ha; [done|].
  intros Hb. rewrite lookup_insert_ne; [done | congruence].
Qed.

Lemma find_or_emplace_inv a (B : gmap Z (list Z)) b l :
  find_or_emplace a B !! b = Some l -> B !! b = Some l \/ l = [].
Proof.
  unfold find_or_emplace. destruct (B !! a) as [l'|] eqn:Ha; [auto|].
  destruct (decide (a = b)) as [->|Hne].
  - rewrite lookup_insert_eq. intros [= <-]. auto.
  - rewrite lookup_insert_ne by done. auto.
Qed.

Lemma same_unguarded_refl st : same_unguarded st st.
Proof. by repeat split. Qed.

Lemma same_unguarded_trans st1 st2 st3 :
  same_unguarded st1 st2 -> same_unguarded st2 st3 -> same_unguarded st1 st3.
Proof. intros (?&?&?&?) (?&?&?&?). repeat split; congruence. Qed.

(** Looking up the bucket, creating it when absent, keeps the invariant and
    removes nothing. *)
Lemma find_or_emplace_struct_inv st a :
  struct_inv st ->
  struct_inv (set_buckets st (find_or_emplace a (m_AlignmentToSlice st))).
Proof.
  intros []. split; simpl; try done.
  - intros b l s [Hb| ->]%find_or_emplace_inv Hs; [by eapply inv_bucket_range0|].
    by apply elem_of_nil in Hs.
  - intros b c lb lc s [Hb| ->]%find_or_emplace_inv [Hc| ->]%find_or_emplace_inv
      Hsb Hsc; try (by apply elem_of_nil in Hsb); try (by apply elem_of_nil in Hsc).
    by eapply inv_bucket_unique0.
  - intros b l [Hb| ->]%find_or_emplace_inv; [by eapply inv_bucket_nodup0|].
    by apply NoDup_nil.
  - intros i Hi. destruct (inv_registered0 i Hi) as (b & l & Hb & Hl).
    exists b, l. split; [by apply find_or_emplace_keeps | done].
Qed.

Lemma find_or_emplace_structure_le st a :
  structure_le st (set_buckets st (find_or_emplace a (m_AlignmentToSlice st))).
Proof.
  split; simpl; try done.
  - intros k mgr Hk. exists mgr. split; [done | apply mgr_evolves_refl].
  - intros b l Hb. exists []. rewrite app_nil_r. by apply find_or_emplace_keeps.
Qed.

(** Lines 311-327: the collection has been grown by null entries, the slice
    at the next unused index is built and appended to the bucket. *)
Lemma create_slice_struct_inv st a Slices (k : nat) mgr :
  struct_inv st ->
  m_AlignmentToSlice st !! a = Some Slices ->
  m_NextUnusedSlice st < m_MaxSliceCount st ->
  m_NextUnusedSlice st < Z.of_nat (length (m_Slices st ++ replicate k None)) ->
  Z.of_nat (length (m_Slices st ++ replicate k None)) < 2 ^ 32 ->
  struct_inv
    (set_structure st
       (<[Z.to_nat (m_NextUnusedSlice st) := Some mgr]>
          (m_Slices st ++ replicate k None))
       (<[a := Slices ++ [m_NextUnusedSlice st]]> (m_AlignmentToSlice st))
       (wrap32 (m_NextUnusedSlice st + 1))).
Proof.
  intros [] Ha Hnext Hlt Hlen.
  set (n := m_NextUnusedSlice st) in *.
  assert (Hw : wrap32 (n + 1) = n + 1).
  { apply wrap32_small. unfold is_uint32. lia. }
  split; simpl; rewrite ?Hw, ?length_insert; try done; try lia.
  - intros i Hi. destruct (decide (i = n)) as [->|Hne].
    + exists mgr. apply list_lookup_insert_eq. lia.
    + destruct (inv_live0 i) as (m & Hm); [lia|]. exists m.
      rewrite list_lookup_insert_ne by lia.
      rewrite lookup_app_l; [done | by eapply lookup_lt_Some].
  - intros j m Hj. destruct (decide (j = Z.to_nat n)) as [->|Hne]; [lia|].
    rewrite list_lookup_insert_ne in Hj by done.
    apply lookup_app_Some in Hj as [Hj|[_ Hj]].
    + apply inv_fresh0 in Hj. lia.
    + by apply lookup_replicate in Hj as [? _].
  - intros b l s Hb Hs. destruct (decide (a = b)) as [<-|Hne].
    + rewrite lookup_insert_eq in Hb. injection Hb as <-.
      apply elem_of_app in Hs as [Hs|Hs%list_elem_of_singleton].
      * pose proof (inv_bucket_range0 _ _ _ Ha Hs). lia.
      * lia.
    + rewrite lookup_insert_ne in Hb by done.
      pose proof (inv_bucket_range0 _ _ _ Hb Hs). lia.
  - assert (Hold : forall b lb s, m_AlignmentToSlice st !! b = Some lb ->
              s ∈ lb -> s ∈ Slices ++ [n] -> a = b).
    { intros b lb s Hb Hsb [Hs|Hs%list_elem_of_singleton]%elem_of_app.
      - by eapply inv_bucket_unique0.
      - subst s. pose proof (inv_bucket_range0 _ _ _ Hb Hsb). lia. }
    intros b c lb lc s Hb Hc Hsb Hsc.
    destruct (decide (a = b)) as [<-|Hnb], (decide (a = c)) as [<-|Hnc]; [done|..].
    + rewrite lookup_insert_eq in Hb. injection Hb as <-.
      rewrite lookup_insert_ne in Hc by done. by eapply Hold.
    + rewrite lookup_insert_eq in Hc. injection Hc as <-.
      rewrite lookup_insert_ne in Hb by done. symmetry. by eapply Hold.
    + rewrite lookup_insert_ne in Hb, Hc by done. by eapply inv_bucket_unique0.
  - intros b l Hb. destruct (decide (a = b)) as [<-|Hne].
    + rewrite lookup_insert_eq in Hb. injection Hb as <-.
      apply NoDup_app. split; [by eapply inv_bucket_nodup0|].
      split; [|apply NoDup_singleton].
      intros s Hs ->%list_elem_of_singleton.
      pose proof (inv_bucket_range0 _ _ _ Ha Hs). lia.
    + rewrite lookup_insert_ne in Hb by done. by eapply inv_bucket_nodup0.
  - intros i Hi. destruct (decide (i = n)) as [->|Hne].
    + exists a, (Slices ++ [n]). rewrite lookup_insert_eq. split; [done|].
      apply elem_of_app. right. by apply list_elem_of_singleton.
    + destruct (inv_registered0 i) as (b & l & Hb & Hl); [lia|].
      destruct (decide (a = b)) as [<-|Hab].
      * exists a, (Slices ++ [n]). rewrite lookup_insert_eq. split; [done|].
        apply elem_of_app. left. congruence.
      * exists b, l. by rewrite lookup_insert_ne.
Qed.

Lemma create_slice_structure_le st a Slices (k : nat) mgr :
  struct_inv st ->
  m_AlignmentToSlice st !! a = Some Slices ->
  m_NextUnusedSlice st < m_MaxSliceCount st ->
  structure_le st
    (set_structure st
       (<[Z.to_nat (m_NextUnusedSlice st) := Some mgr]>
          (m_Slices st ++ replicate k None))
       (<[a := Slices ++ [m_NextUnusedSlice st]]> (m_AlignmentToSlice st))
       (wrap32 (m_NextUnusedSlice st + 1))).
Proof.
  intros [] Ha Hnext.
  set (n := m_NextUnusedSlice st) in *.
  assert (Hw : wrap32 (n + 1) = n + 1).
  { apply wrap32_small. unfold is_uint32. lia. }
  split; simpl; rewrite ?Hw, ?length_insert, ?length_app; try done; try lia.
  - intros j m Hj. exists m. split; [|apply mgr_evolves_refl].
    pose proof (inv_fresh0 _ _ Hj).
    rewrite list_lookup_insert_ne by lia.
    rewrite lookup_app_l; [done | by eapply lookup_lt_Some].
  - intros b l Hb. destruct (decide (a = b)) as [<-|Hne].
    + exists [n]. rewrite lookup_insert_eq. congruence.
    + exists []. rewrite lookup_insert_ne by done. by rewrite app_nil_r.
Qed.

End Select.

Section SelectSlice.
Context {RM : RegionManager}.
Implicit Types st : DynamicTextureAtlasImpl.

(** Line 309: the loop is left because every slice is in use. *)
Lemma select_slice_break st a Slice st' s :
  select_slice a st Slice = Some (inl (st', s)) ->
  st' = set_buckets st (find_or_emplace a (m_AlignmentToSlice st))
  /\ s = m_MaxSliceCount st /\ s = m_NextUnusedSlice st.
Proof.
  unfold select_slice.
  set (B1 := find_or_emplace a (m_AlignmentToSlice st)).
  set (s1 := match find_next_slice (default [] (B1 !! a)) Slice with
             | Some s0 => s0 | None => m_NextUnusedSlice st end).
  destruct (Z.eqb_spec s1 (m_NextUnusedSlice st)); [|done].
  destruct (Z.eqb_spec s1 (m_MaxSliceCount st)).
  - intros [= <- <-]. done.
  - destruct (resize_slices _ _ _ _ _); done.
Qed.

(** The block under the lock has chosen a slice: it exists, it is listed in
    the bucket of the alignment, it is not below the candidate, and every
    slice created on the way went into that bucket. *)
Lemma select_slice_chosen st a Slice st' s :
  struct_inv st -> 0 <= Slice <= m_NextUnusedSlice st ->
  select_slice a st Slice = Some (inr (st', s)) ->
  struct_inv st' /\ structure_le st st' /\ same_unguarded st st'
  /\ Slice <= s < m_NextUnusedSlice st'
  /\ exists l, m_AlignmentToSlice st' !! a = Some l /\ s ∈ l
       /\ forall i, m_NextUnusedSlice st <= i < m_NextUnusedSlice st' -> i ∈ l.
Proof.
  intros Hinv HS. unfold select_slice.
  pose proof (find_or_emplace_struct_inv st a Hinv) as Hinv1.
  pose proof (find_or_emplace_structure_le st a) as Hle1.
  destruct (find_or_emplace_lookup a (m_AlignmentToSlice st)) as (l & Hl & _).
  set (B1 := find_or_emplace a (m_AlignmentToSlice st)) in *.
  set (st1 := set_buckets st B1) in *.
  rewrite Hl. simpl default.
  destruct (find_next_slice l Slice) as [s0|] eqn:Hfind.
  - apply find_next_slice_Some in Hfind as [Hin Hge].
    pose proof (inv_bucket_range st1 Hinv1 a l s0 Hl Hin) as Hr. simpl in Hr.
    destruct (Z.eqb_spec s0 (m_NextUnusedSlice st)); [lia|].
    intros [= <- <-]. split_and!; try done; try (simpl; lia).
    exists l. split_and!; [done | done | simpl; lia].
  - rewrite Z.eqb_refl.
    destruct (Z.eqb_spec (m_NextUnusedSlice st) (m_MaxSliceCount st)); [done|].
    destruct (resize_slices _ _ _ _ _) as [slices'|] eqn:Hres; [|done].
    pose proof (inv_next st Hinv) as Hn. pose proof (inv_max st Hinv) as Hm.
    apply resize_slices_inv in Hres as (k & -> & Hlt & Hlen);
      [| lia | lia | by apply inv_extra | by apply inv_next_len | by apply inv_len].
    intros [= <- <-].
    assert (Hw : wrap32 (m_NextUnusedSlice st + 1) = m_NextUnusedSlice st + 1).
    { apply wrap32_small. unfold is_uint32. lia. }
    split_and!.
    + apply (create_slice_struct_inv st1 a l k); simpl; done || lia.
    + eapply structure_le_trans; [exact Hle1|].
      apply (create_slice_structure_le st1 a l k); simpl; done || lia.
    + by repeat split.
    + lia.
    + simpl. lia.
    + exists (l ++ [m_NextUnusedSlice st]). simpl.
      rewrite lookup_insert_eq, Hw.
      split_and!; [done | |].
      * apply elem_of_app. right. by apply list_elem_of_singleton.
      * intros i Hi. apply elem_of_app. right.
        apply list_elem_of_singleton. lia.
Qed.

(** In a state of the invariant the block has no result only when the inner
    loop does not end. *)
Lemma select_slice_None st a Slice :
  struct_inv st ->
  select_slice a st Slice = None ->
  resize_slices resize_fuel (m_NextUnusedSlice st) (m_ExtraSliceCount st)
                (m_MaxSliceCount st) (m_Slices st) = None
  /\ m_NextUnusedSlice st < m_MaxSliceCount st.
Proof.
  intros Hinv. unfold select_slice.
  set (s1 := match find_next_slice _ Slice with
             | Some s0 => s0 | None => m_NextUnusedSlice st end).
  destruct (Z.eqb_spec s1 (m_NextUnusedSlice st)) as [->|]; [|done].
  destruct (Z.eqb_spec (m_NextUnusedSlice st) (m_MaxSliceCount st)); [done|].
  destruct (resize_slices _ _ _ _ _); [done|].
  pose proof (inv_next st Hinv). split; [done | lia].
Qed.

End SelectSlice.

(** ** The placement loop (lines 288-341) *)

Section PlacementLoop.
Context {RM : RegionManager}.
Implicit Types st : DynamicTextureAtlasImpl.

Lemma new_slices_persist st0 st st' a :
  structure_le st st' ->
  (forall i, m_NextUnusedSlice st0 <= i < m_NextUnusedSlice st ->
     exists l, m_AlignmentToSlice st !! a = Some l /\ i ∈ l) ->
  (exists l, m_AlignmentToSlice st' !! a = Some l /\
     forall i, m_NextUnusedSlice st <= i < m_NextUnusedSlice st' -> i ∈ l) ->
  forall i, m_NextUnusedSlice st0 <= i < m_NextUnusedSlice st' ->
    exists l, m_AlignmentToSlice st' !! a = Some l /\ i ∈ l.
Proof.
  intros Hle Hold (l & Hl & Hnew) i Hi.
  destruct (Z.lt_ge_cases i (m_NextUnusedSlice st)) as [Hlt|Hge].
  - destruct (Hold i) as (l0 & Hl0 & Hin); [lia|].
    destruct (le_buckets _ _ Hle a l0 Hl0) as (l' & Hl').
    exists (l0 ++ l'). split; [done|]. apply elem_of_app. by left.
  - exists l. split; [done|]. apply Hnew. lia.
Qed.

(** One round, from a state of the loop invariant. *)
Lemma placement_step_spec st0 a aw ah p :
  placement_inv st0 a p ->
  match placement_step a aw ah p with
  | StepUndefined => select_slice a (pl_atlas p) (pl_Slice p) = None
  | StepContinue p' =>
      placement_inv st0 a p' /\ pl_Slice p < pl_Slice p'
      /\ is_Some (m_AlignmentToSlice (pl_atlas p') !! a)
  | StepBreak p' =>
      (placement_inv st0 a p' \/ placed st0 a (aw / a) (ah / a) p')
      /\ is_Some (m_AlignmentToSlice (pl_atlas p') !! a)
  end.
Proof.
  intros [Hs Hle Hsame HS Hempty Hnew]. unfold placement_step.
  destruct (select_slice a (pl_atlas p) (pl_Slice p)) as [[[st' s]|[st' s]]|] eqn:Hsel;
    [| |done].
  - (* line 309 *)
    apply select_slice_break in Hsel as (-> & -> & Hmax).
    destruct (find_or_emplace_lookup a (m_AlignmentToSlice (pl_atlas p)))
      as (l & Hl & _).
    split; [left; split; simpl|by exists l].
    + by apply find_or_emplace_struct_inv.
    + eapply structure_le_trans; [exact Hle|apply find_or_emplace_structure_le].
    + done.
    + lia.
    + done.
    + intros i Hi. destruct (Hnew i Hi) as (l0 & Hl0 & Hin).
      exists l0. split; [by apply find_or_emplace_keeps | done].
  - apply select_slice_chosen in Hsel
      as (Hs' & Hle' & Hsame' & Hrange & l & Hl & Hin & Hcreated); [|done|done].
    destruct (inv_live st' Hs' s) as (mgr & Hmgr); [lia|].
    rewrite Hmgr.
    destruct (Mgr_Allocate mgr (aw / a) (ah / a)) as [mgr' r] eqn:Halloc.
    set (st'' := set_slices st' (<[Z.to_nat s := Some mgr']> (m_Slices st'))).
    assert (Hs'' : struct_inv st'') by by eapply struct_inv_update.
    assert (Hle'' : structure_le st0 st'').
    { eapply structure_le_trans; [exact Hle|].
      eapply structure_le_trans; [exact Hle'|].
      eapply structure_le_update; [done|].
      apply (mgr_op_Allocate _ _ (aw / a) (ah / a)). by rewrite Halloc. }
    assert (Hsame'' : same_unguarded st0 st'').
    { eapply same_unguarded_trans; [exact Hsame|].
      eapply same_unguarded_trans; [exact Hsame'|]. by repeat split. }
    assert (Hnew'' : forall i,
              m_NextUnusedSlice st0 <= i < m_NextUnusedSlice st'' ->
              exists l, m_AlignmentToSlice st'' !! a = Some l /\ i ∈ l).
    { apply (new_slices_persist st0 (pl_atlas p) st' a); [done | done|].
      exists l. split; done. }
    pose proof (inv_next st' Hs') as Hn. pose proof (inv_max st' Hs') as Hm.
    destruct (IsEmpty r) eqn:Hr; simpl.
    + split_and!; [split; simpl; try done| |by exists l].
      * rewrite wrap32_small by (unfold is_uint32; lia). lia.
      * rewrite wrap32_small by (unfold is_uint32; lia). simpl. lia.
    + split; [right; split; simpl; try done|by exists l].
      * lia.
      * exists mgr. rewrite Halloc. simpl. split; [done|].
        apply list_lookup_insert_eq. by eapply lookup_lt_Some.
      * by exists l.
Qed.

(** The loop, from a state of the loop invariant: it ends with a region
    placed, or with the invariant still in force and no region; the bucket
    of the alignment exists as soon as one round has run. *)
Lemma placement_loop_spec st0 a aw ah fuel : forall p p',
  placement_inv st0 a p ->
  placement_loop fuel a aw ah p = Some p' ->
  (placement_inv st0 a p' \/ placed st0 a (aw / a) (ah / a) p')
  /\ (is_Some (m_AlignmentToSlice (pl_atlas p) !! a)
      \/ pl_Slice p < m_MaxSliceCount (pl_atlas p) ->
      is_Some (m_AlignmentToSlice (pl_atlas p') !! a)).
Proof.
  induction fuel as [|fuel IH]; intros p p' Hinv; simpl;
    destruct (Z.ltb_spec (pl_Slice p) (m_MaxSliceCount (pl_atlas p))) as [Hlt|Hge];
    try done;
    try (intros [= <-]; split; [by left | intros [?|?]; [done | lia]]).
  pose proof (placement_step_spec st0 a aw ah p Hinv) as Hstep.
  destruct (placement_step a aw ah p) as [q|q|]; [| |done].
  - intros [= <-]. destruct Hstep as [? ?]. done.
  - destruct Hstep as (Hq & _ & Hb). intros Hloop.
    destruct (IH q p' Hq Hloop) as [Hres Hbucket]. split; [done|].
    intros _. apply Hbucket. by left.
Qed.

End PlacementLoop.

(** ** Allocate as a whole *)

Section AllocateFacts.
Context {RM : RegionManager}.
Implicit Types st : DynamicTextureAtlasImpl.

Lemma placement_inv_start st a :
  struct_inv st ->
  placement_inv st a {| pl_atlas := st; pl_Slice := 0;
                        pl_Subregion := Region.default |}.
Proof.
  intros Hs. split; simpl.
  - done.
  - apply structure_le_refl.
  - apply same_unguarded_refl.
  - pose proof (inv_next st Hs). lia.
  - apply IsEmpty_default.
  - intros i Hi. lia.
Qed.

(** The ways [Allocate] returns. *)
Lemma Allocate_inversion st w h st' oh tr :
  struct_inv st ->
  Allocate st w h = Some (st', oh, tr) ->
  (st' = st /\ oh = None
   /\ (w = 0 \/ h = 0 \/ w > Width (m_Desc st) \/ h > Height (m_Desc st)))
  \/ (w <> 0 /\ h <> 0 /\ w <= Width (m_Desc st) /\ h <= Height (m_Desc st)
      /\ exists a p,
        resolve_alignment (m_MinAlignment st) w h = Some a
        /\ ((placement_inv st a p /\ st' = pl_atlas p /\ oh = None
             /\ tr = [EvLogError (MsgFailedToSuballocate w h)]
             /\ (0 < m_MaxSliceCount st ->
                 is_Some (m_AlignmentToSlice st' !! a)))
            \/ (placed st a (AlignUp w a / a) (AlignUp h a / a) p
                /\ st' = set_counters (pl_atlas p)
                           (wrap_s32 (m_AllocationCount (pl_atlas p) + 1))
                           (wrap_s64 (m_AllocatedArea (pl_atlas p)
                                      + wrap_s64 (w * h)))
                           (wrap_s64 (m_UsedArea (pl_atlas p)
                                      + wrap_s64 (AlignUp w a * AlignUp h a)))
                /\ oh = Some {| m_Subregion := pl_Subregion p;
                                m_Slice := pl_Slice p;
                                m_Alignment := a;
                                m_Size := (w, h) |}
                /\ tr = []))).
Proof.
  intros Hs. unfold Allocate.
  destruct (Z.eqb_spec w 0) as [Hw|Hw]; cbn [orb].
  { intros [= <- <- <-]. left. split_and!; [done | done | lia]. }
  destruct (Z.eqb_spec h 0) as [Hh|Hh]; cbn [orb].
  { intros [= <- <- <-]. left. split_and!; [done | done | lia]. }
  destruct (Z.gtb_spec w (Width (m_Desc st))) as [HW|HW]; cbn [orb].
  { intros [= <- <- <-]. left. split_and!; [done | done | lia]. }
  destruct (Z.gtb_spec h (Height (m_Desc st))) as [HH|HH]; cbn [orb].
  { intros [= <- <- <-]. left. split_and!; [done | done | lia]. }
  destruct (resolve_alignment (m_MinAlignment st) w h) as [a|] eqn:Ha; [|done].
  destruct (placement_loop (placement_fuel st) a (AlignUp w a) (AlignUp h a) _)
    as [p|] eqn:Hloop; [|done].
  apply (placement_loop_spec st) in Hloop as [Hres Hbucket];
    [|by apply placement_inv_start].
  simpl in Hbucket.
  intros Hret. right. split_and!; try done. exists a, p. split; [done|].
  destruct Hres as [Hfail|Hok].
  - rewrite (pi_empty _ _ _ Hfail) in Hret. injection Hret as <- <- <-.
    left. split_and!; try done. intros Hmax. apply Hbucket. by right.
  - rewrite (pd_nonempty _ _ _ _ _ Hok) in Hret. injection Hret as <- <- <-.
    right. done.
Qed.

Lemma Allocate_structure st w h st' oh tr :
  struct_inv st ->
  Allocate st w h = Some (st', oh, tr) ->
  struct_inv st' /\ structure_le st st'.
Proof.
  intros Hs Hal.
  destruct (Allocate_inversion _ _ _ _ _ _ Hs Hal)
    as [(-> & _)|(_ & _ & _ & _ & a & p & _ & [(Hp & -> & _)|(Hp & -> & _)])].
  - split; [done | apply structure_le_refl].
  - destruct Hp. done.
  - destruct Hp. split.
    + by eapply struct_inv_ext; [..|exact pd_struct0].
    + eapply structure_le_trans; [exact pd_le0|]. by apply structure_le_ext.
Qed.

Lemma Allocate_inv st w h st' oh tr :
  atlas_inv st ->
  Allocate st w h = Some (st', oh, tr) -> atlas_inv st'.
Proof.
  intros [Hs Harr Hver Hc Ha Hu] Hal.
  destruct (Allocate_structure _ _ _ _ _ _ Hs Hal) as [Hs' Hle].
  pose proof (le_length _ _ Hle) as Hlen.
  destruct (Allocate_inversion _ _ _ _ _ _ Hs Hal)
    as [(-> & _)|(_ & _ & _ & _ & a & p & _ & [(Hp & -> & _)|(Hp & -> & _)])].
  - done.
  - destruct Hp as [_ _ (Ed & _ & Ev & Ec) _ _ _].
    unfold counters in Ec. injection Ec as Ea Eu Ec.
    split; rewrite ?Ed, ?Ev, ?Ea, ?Eu, ?Ec; try done. lia.
  - destruct Hp as [_ _ (Ed & _ & Ev & Ec) _ _ _ _ _].
    split; simpl in *; rewrite ?Ed, ?Ev; try done;
      try apply wrap_s32_range; try apply wrap_s64_range. lia.
Qed.

(** The handle of a successful call: the alignment is the one resolved for
    the request, the slice exists and is listed under that alignment, and
    the region is what the manager of that slice returned for the aligned
    size in cells. *)
Lemma Allocate_handle st w h st' hd tr :
  struct_inv st ->
  Allocate st w h = Some (st', Some hd, tr) ->
  resolve_alignment (m_MinAlignment st) w h = Some (m_Alignment hd)
  /\ m_Size hd = (w, h)
  /\ IsEmpty (m_Subregion hd) = false
  /\ (exists mgr,
        m_Subregion hd =
          snd (Mgr_Allocate mgr (AlignUp w (m_Alignment hd) / m_Alignment hd)
                                (AlignUp h (m_Alignment hd) / m_Alignment hd))
        /\ m_Slices st' !! Z.to_nat (m_Slice hd) =
           Some (Some (fst (Mgr_Allocate mgr
                              (AlignUp w (m_Alignment hd) / m_Alignment hd)
                              (AlignUp h (m_Alignment hd) / m_Alignment hd)))))
  /\ (exists l, m_AlignmentToSlice st' !! m_Alignment hd = Some l
                /\ m_Slice hd ∈ l)
  /\ 0 <= m_Slice hd < m_NextUnusedSlice st'
  /\ m_Desc st' = m_Desc st
  /\ m_AllocationCount st' = wrap_s32 (m_AllocationCount st + 1)
  /\ m_AllocatedArea st' = wrap_s64 (m_AllocatedArea st + wrap_s64 (w * h))
  /\ m_UsedArea st' =
       wrap_s64 (m_UsedArea st
                 + wrap_s64 (AlignUp w (m_Alignment hd) * AlignUp h (m_Alignment hd))).
Proof.
  intros Hs Hal.
  destruct (Allocate_inversion _ _ _ _ _ _ Hs Hal)
    as [(_ & ? & _)|(_ & _ & _ & _ & a & p & Ha & [(_ & _ & ? & _)|(Hp & -> & Hh & _)])];
    try done.
  injection Hh as ->. simpl.
  destruct Hp as [_ _ (Ed & _ & _ & Ec) ? ? ? ? _].
  unfold counters in Ec. injection Ec as Ea Eu Ec.
  rewrite Ea, Eu, Ec. split_and!; done || lia.
Qed.

End AllocateFacts.

(** ** When Allocate returns *)

Section Totality.
Context {RM : RegionManager}.
Implicit Types st : DynamicTextureAtlasImpl.

Lemma can_grow_le st st' : structure_le st st' -> can_grow st -> can_grow st'.
Proof.
  intros [] [?|[? Hne]]; [left; lia|right]. split; [lia|].
  destruct (m_Slices st); [done|]. destruct (m_Slices st'); [simpl in *; lia|done].
Qed.

Lemma placement_step_defined st0 a aw ah p :
  placement_inv st0 a p -> can_grow (pl_atlas p) ->
  placement_step a aw ah p <> StepUndefined.
Proof.
  intros Hp Hgrow Hundef.
  pose proof (placement_step_spec st0 a aw ah p Hp) as Hstep.
  rewrite Hundef in Hstep.
  destruct Hp as [Hs _ _ _ _ _].
  apply select_slice_None in Hstep as [Hnone Hlt]; [|done].
  pose proof (inv_next _ Hs). pose proof (inv_max _ Hs).
  destruct (resize_slices_total 1 (m_NextUnusedSlice (pl_atlas p))
              (m_ExtraSliceCount (pl_atlas p)) (m_MaxSliceCount (pl_atlas p))
              (m_Slices (pl_atlas p))) as [? Hsome];
    [lia | lia | by apply inv_next_len | by apply inv_len | |].
  - destruct Hgrow as [?|?]; [left; lia | by right].
  - unfold resize_fuel in Hnone. congruence.
Qed.

(** The fuel of the placement loop is enough: from a state of the loop
    invariant where slices can be added, the loop ends. *)
Lemma placement_loop_total st0 a aw ah fuel : forall p,
  placement_inv st0 a p -> can_grow st0 ->
  (Z.to_nat (m_MaxSliceCount st0 - pl_Slice p) < fuel)%nat ->
  is_Some (placement_loop fuel a aw ah p).
Proof.
  induction fuel as [|fuel IH]; intros p Hp Hgrow Hfuel; [lia|]. simpl.
  pose proof (le_max _ _ (pi_le _ _ _ Hp)) as Emax.
  destruct (Z.ltb_spec (pl_Slice p) (m_MaxSliceCount (pl_atlas p))); [|done].
  pose proof (placement_step_spec st0 a aw ah p Hp) as Hstep.
  pose proof (placement_step_defined st0 a aw ah p Hp) as Hdef.
  destruct (placement_step a aw ah p) as [q|q|]; [done| |].
  - destruct Hstep as (Hq & Hlt & _). apply IH; [done | done | lia].
  - exfalso. apply Hdef; [|done].
    eapply can_grow_le; [exact (pi_le _ _ _ Hp) | done].
Qed.

(** In a state the atlas can reach, where slices can be added, Allocate
    returns for every request whose alignment resolves. *)
Lemma Allocate_total st w h :
  atlas_inv st -> can_grow st ->
  is_Some (resolve_alignment (m_MinAlignment st) w h) ->
  is_Some (Allocate st w h).
Proof.
  intros [Hs _ _ _ _ _] Hgrow [a Ha]. unfold Allocate.
  destruct ((w =? 0) || (h =? 0)); [done|].
  destruct ((w >? Width (m_Desc st)) || (h >? Height (m_Desc st))); [done|].
  rewrite Ha.
  destruct (placement_loop_total st a (AlignUp w a) (AlignUp h a) (placement_fuel st)
              {| pl_atlas := st; pl_Slice := 0; pl_Subregion := Region.default |})
    as [p Hp]; [by apply placement_inv_start | done | |].
  - unfold placement_fuel. simpl. lia.
  - rewrite Hp. destruct (IsEmpty (pl_Subregion p)); done.
Qed.

(** More fuel does not help a loop that found a round without result. *)
Lemma placement_loop_fuel_enough st0 a aw ah fuel : forall p,
  placement_inv st0 a p ->
  (Z.to_nat (m_MaxSliceCount st0 - pl_Slice p) < fuel)%nat ->
  placement_loop fuel a aw ah p = None ->
  forall fuel', placement_loop fuel' a aw ah p = None.
Proof.
  induction fuel as [|fuel IH]; intros p Hp Hfuel; [lia|]. simpl.
  pose proof (le_max _ _ (pi_le _ _ _ Hp)) as Emax.
  destruct (Z.ltb_spec (pl_Slice p) (m_MaxSliceCount (pl_atlas p))) as [Hlt|];
    [|done].
  pose proof (placement_step_spec st0 a aw ah p Hp) as Hstep.
  destruct (placement_step a aw ah p) as [q|q|] eqn:Hq; [done| |].
  - destruct Hstep as (Hinv & Hadv & _). intros Hnone fuel'.
    pose proof (IH q Hinv ltac:(lia) Hnone) as Hall.
    destruct fuel' as [|fuel']; simpl;
      destruct (Z.ltb_spec (pl_Slice p) (m_MaxSliceCount (pl_atlas p)));
      try lia; [done|]. rewrite Hq. apply Hall.
  - intros _ fuel'. destruct fuel' as [|fuel']; simpl;
      destruct (Z.ltb_spec (pl_Slice p) (m_MaxSliceCount (pl_atlas p)));
      try lia; [done|]. by rewrite Hq.
Qed.

End Totality.

(** * The claims of the specification *)

Section Claims.
Context {RM : RegionManager}.
Implicit Types st : DynamicTextureAtlasImpl.

(** C1, as the source has it: for a request that passes the guards of
    Allocate, a set minimum alignment is doubled while it is smaller than
    min(width, height), as the specification says (for min(width, height)
    up to 2^31, where no doubling overflows); an unset minimum alignment
    gives alignment 1 and no doubling.  The alignment of the handle is that
    value, a function of (width, height, minimum alignment) alone. *)
Theorem resolve_alignment_by_design st w h :
  0 < w <= Width (m_Desc st) -> 0 < h <= Height (m_Desc st) ->
  0 <= m_MinAlignment st -> Z.min w h <= 2 ^ 31 ->
  resolve_alignment (m_MinAlignment st) w h =
    Some (if m_MinAlignment st =? 0 then 1
          else spec_alignment (m_MinAlignment st) w h)
  /\ forall st' hd tr,
       struct_inv st ->
       Allocate st w h = Some (st', Some hd, tr) ->
       m_Alignment hd = if m_MinAlignment st =? 0 then 1
                        else spec_alignment (m_MinAlignment st) w h.
Proof.
  intros Hw Hh Ha Hm.
  assert (Hres : resolve_alignment (m_MinAlignment st) w h =
    Some (if m_MinAlignment st =? 0 then 1
          else spec_alignment (m_MinAlignment st) w h)).
  { destruct (Z.eqb_spec (m_MinAlignment st) 0) as [->|Hnz].
    - apply resolve_alignment_unset.
    - apply resolve_alignment_nonzero; lia. }
  split; [exact Hres|].
  intros st' hd tr Hs Hal.
  apply Allocate_handle in Hal as (Hal & _); [|done]. congruence.
Qed.

(** C2: in a state the atlas can reach, with a region manager whose regions
    have the size asked for, a successful Allocate(w, h) adds w*h to the
    allocated area, the aligned area to the used area and one to the
    allocation count; destroying the handle right away succeeds and brings
    the three counters back to what they were before the allocation. *)
Theorem allocate_destroy_roundtrip st w h st' hd tr :
  allocates_requested_size ->
  atlas_inv st ->
  Allocate st w h = Some (st', Some hd, tr) ->
  counters st' =
    (wrap_s64 (m_AllocatedArea st + wrap_s64 (w * h)),
     wrap_s64 (m_UsedArea st
               + wrap_s64 (AlignUp w (m_Alignment hd) * AlignUp h (m_Alignment hd))),
     wrap_s32 (m_AllocationCount st + 1))
  /\ exists st'', destroy st' hd = Some st'' /\ counters st'' = counters st.
Proof.
  intros Hcontract [Hs _ _ Hc Ha Hu] Hal.
  apply Allocate_handle in Hal
    as (Hres & Hsize & Hne & (mgr & Hr & Hslot) & _ & _ & _ & Ec & Ea & Eu);
    [|done].
  apply resolve_alignment_pos in Hres.
  set (a := m_Alignment hd) in *.
  split; [unfold counters; congruence|].
  rewrite Hr in Hne. destruct (Hcontract _ _ _ Hne) as [Hrw Hrh].
  rewrite <- Hr in Hrw, Hrh.
  unfold destroy. rewrite Hsize. simpl fst. simpl snd.
  rewrite (Free_live _ _ _ _ _ _ _ Hslot).
  eexists. split; [reflexivity|]. unfold counters. simpl. fold a.
  rewrite Hrw, Hrh, !AlignUp_multiple by lia.
  rewrite !wrap32_small by (by apply AlignUp_range).
  rewrite Ec, Ea, Eu. f_equal; [f_equal|].
  - apply wrap_s64_add_sub; [done|].
    replace (- w * h) with (- (w * h)) by lia. apply wrap_s64_cancel.
  - apply wrap_s64_add_sub; [done|].
    replace (- AlignUp w a * AlignUp h a) with (- (AlignUp w a * AlignUp h a))
      by lia.
    apply wrap_s64_cancel.
  - by apply wrap_s32_add_sub.
Qed.

Lemma step_inv st st' :
  atlas_inv st -> step st st' -> atlas_inv st' /\ structure_le st st'.
Proof.
  intros Hinv [w h oh tr Hal|Slice a r w h Hf|dev ctx tex tr Hg].
  - split; [by eapply Allocate_inv|].
    by eapply Allocate_structure; [apply Hinv|].
  - split; [by eapply Free_inv | by eapply Free_structure_le].
  - split; [by eapply GetTexture_inv | by eapply GetTexture_structure_le].
Qed.

Lemma steps_inv st st' :
  atlas_inv st -> steps st st' -> atlas_inv st' /\ structure_le st st'.
Proof.
  intros Hinv Hsteps. induction Hsteps as [st|st1 st2 st3 H12 _ IH].
  - split; [done | apply structure_le_refl].
  - destruct (step_inv _ _ Hinv H12) as [Hinv2 Hle12].
    destruct (IH Hinv2) as [Hinv3 Hle23].
    split; [done | by eapply structure_le_trans].
Qed.

(** Every state reached from a constructed atlas satisfies the invariant. *)
Lemma reachable_inv pDevice CreateInfo st0 st :
  well_typed CreateInfo ->
  construct pDevice CreateInfo = inr st0 ->
  steps st0 st -> atlas_inv st.
Proof.
  intros Hty Hc Hsteps.
  by apply (steps_inv st0 st (construct_inv _ _ _ Hty Hc)).
Qed.

(** C8: over any sequence of operations that return, starting in a state
    the atlas can reach: the count of slices ever created only grows; a
    slice that exists stays at its index and only sees the allocations and
    frees of its own manager; a slice that appears was created at an index
    never used before; the list of an alignment bucket only gets longer, at
    its end; a slice listed under an alignment is never listed under
    another one, and every slice created is listed under exactly one. *)
Theorem slices_only_grow st st' :
  atlas_inv st -> steps st st' ->
  m_NextUnusedSlice st <= m_NextUnusedSlice st'
  /\ (forall (k : nat) mgr, m_Slices st !! k = Some (Some mgr) ->
        exists mgr', m_Slices st' !! k = Some (Some mgr')
                     /\ mgr_evolves mgr mgr')
  /\ (forall (k : nat) mgr', m_Slices st' !! k = Some (Some mgr') ->
        (exists mgr, m_Slices st !! k = Some (Some mgr))
        \/ m_NextUnusedSlice st <= Z.of_nat k < m_NextUnusedSlice st')
  /\ (forall a l, m_AlignmentToSlice st !! a = Some l ->
        exists l', m_AlignmentToSlice st' !! a = Some (l ++ l'))
  /\ (forall a l i, m_AlignmentToSlice st !! a = Some l -> i ∈ l ->
        forall b lb, m_AlignmentToSlice st' !! b = Some lb -> i ∈ lb -> b = a)
  /\ (forall i, 0 <= i < m_NextUnusedSlice st' ->
        exists a l, m_AlignmentToSlice st' !! a = Some l /\ i ∈ l
          /\ forall b lb, m_AlignmentToSlice st' !! b = Some lb -> i ∈ lb -> b = a).
Proof.
  intros Hinv Hsteps.
  destruct (steps_inv _ _ Hinv Hsteps) as [[Hs' _ _ _ _ _] Hle].
  destruct Hinv as [Hs _ _ _ _ _].
  split_and!.
  - by apply le_next.
  - by apply le_slices.
  - intros k mgr' Hk.
    pose proof (inv_fresh _ Hs' _ _ Hk) as Hlt.
    destruct (Z.lt_ge_cases (Z.of_nat k) (m_NextUnusedSlice st)) as [Hold|Hnew].
    + left. destruct (inv_live _ Hs (Z.of_nat k)) as (mgr & Hmgr); [lia|].
      rewrite Nat2Z.id in Hmgr. by exists mgr.
    + right. lia.
  - by apply le_buckets.
  - intros a l i Hl Hi b lb Hb Hib.
    destruct (le_buckets _ _ Hle a l Hl) as (l' & Hl').
    eapply (inv_bucket_unique _ Hs'); [exact Hb | exact Hl' | done |].
    apply elem_of_app. by left.
  - intros i Hi. destruct (inv_registered _ Hs' i Hi) as (a & l & Hl & Hin).
    exists a, l. split_and!; [done | done |].
    intros b lb Hb Hib. by eapply (inv_bucket_unique _ Hs').
Qed.

(** C9: for the handle of a successful Allocate(w, h) whose region lies at
    cell (x, y) with alignment a, the products x*a and y*a fitting 32 bits:
    GetOrigin is (x*a, y*a), GetSize is the requested (w, h), GetSlice is
    the index of the slice whose manager returned the region, and
    GetUVScaleBias divides, as binary32 floats, the size and the origin by
    the width and the height of the atlas. *)
Theorem suballocation_accessors st w h st' hd tr :
  atlas_inv st ->
  Allocate st w h = Some (st', Some hd, tr) ->
  is_uint32 (Region.x (m_Subregion hd) * m_Alignment hd) ->
  is_uint32 (Region.y (m_Subregion hd) * m_Alignment hd) ->
  GetOrigin hd = (Region.x (m_Subregion hd) * m_Alignment hd,
                  Region.y (m_Subregion hd) * m_Alignment hd)
  /\ GetSize hd = (w, h)
  /\ (exists mgr cw ch,
        m_Subregion hd = snd (Mgr_Allocate mgr cw ch)
        /\ m_Slices st' !! Z.to_nat (GetSlice hd)
           = Some (Some (fst (Mgr_Allocate mgr cw ch))))
  /\ GetUVScaleBias (m_Desc st') hd =
       (float_div (float_of_uint32 w) (float_of_uint32 (Width (m_Desc st))),
        float_div (float_of_uint32 h) (float_of_uint32 (Height (m_Desc st))),
        float_div (float_of_uint32 (Region.x (m_Subregion hd) * m_Alignment hd))
                  (float_of_uint32 (Width (m_Desc st))),
        float_div (float_of_uint32 (Region.y (m_Subregion hd) * m_Alignment hd))
                  (float_of_uint32 (Height (m_Desc st)))).
Proof.
  intros [Hs _ _ _ _ _] Hal Hx Hy.
  apply Allocate_handle in Hal
    as (_ & Hsize & _ & (mgr & Hr & Hslot) & _ & _ & Hd & _); [|done].
  assert (Ho : GetOrigin hd = (Region.x (m_Subregion hd) * m_Alignment hd,
                               Region.y (m_Subregion hd) * m_Alignment hd)).
  { unfold GetOrigin. by rewrite !wrap32_small. }
  split_and!; [done | done | by eauto |].
  unfold GetUVScaleBias. rewrite Ho. unfold GetSize. rewrite Hsize, Hd. done.
Qed.

End Claims.

(** ** Failure after the guards *)

Section Exhaustion.
Context {RM : RegionManager}.
Implicit Types st : DynamicTextureAtlasImpl.

(** A request that passes the guards and gets no region: the counters and
    everything outside the guarded data are as before, the failure is
    logged, the bucket of the resolved alignment exists once a round has
    run, and every slice the call created is alive and listed in it. *)
Lemma failed_allocate_general st w h st' tr a :
  atlas_inv st ->
  0 < w <= Width (m_Desc st) -> 0 < h <= Height (m_Desc st) ->
  resolve_alignment (m_MinAlignment st) w h = Some a ->
  Allocate st w h = Some (st', None, tr) ->
  counters st' = counters st
  /\ tr = [EvLogError (MsgFailedToSuballocate w h)]
  /\ structure_le st st'
  /\ (0 < m_MaxSliceCount st -> is_Some (m_AlignmentToSlice st' !! a))
  /\ (forall i, m_NextUnusedSlice st <= i < m_NextUnusedSlice st' ->
        (exists l, m_AlignmentToSlice st' !! a = Some l /\ i ∈ l)
        /\ exists mgr, m_Slices st' !! Z.to_nat i = Some (Some mgr)).
Proof.
  intros [Hs _ _ _ _ _] Hw Hh Ha Hal.
  destruct (Allocate_inversion _ _ _ _ _ _ Hs Hal)
    as [(_ & _ & ?)|(_ & _ & _ & _ & a' & p & Ha' & [(Hp & -> & _ & -> & Hb)|(_ & _ & ? & _)])];
    [lia | | done].
  assert (a' = a) as -> by congruence.
  destruct Hp as [Hs' Hle (_ & _ & _ & Hc) _ _ Hnew].
  split_and!; try done.
  intros i Hi. split; [by apply Hnew|].
  apply (inv_live _ Hs'). pose proof (inv_next _ Hs). lia.
Qed.

End Exhaustion.

(** * The example atlases *)

Lemma Shelf_allocates_requested_size : @allocates_requested_size ShelfManager.
Proof.
  intros mgr w h. simpl. unfold Shelf_Allocate.
  destruct ((0 <? w) && (0 <? h) && (w <=? shelf_w mgr)
            && (shelf_next mgr + h <=? shelf_h mgr)); simpl; done.
Qed.

Lemma atlas_256_constructed n :
  construct (Some good_device) (info_256 n) = inr (atlas_256 n).
Proof. reflexivity. Qed.

Lemma atlas_256_inv n : is_uint32 n -> atlas_inv (atlas_256 n).
Proof.
  intros Hn. apply (construct_inv (Some good_device) (info_256 n));
    [|apply atlas_256_constructed].
  unfold well_typed, is_uint32 in *. simpl. lia.
Qed.

Lemma atlas_96_inv : atlas_inv atlas_96.
Proof.
  apply (construct_inv (Some good_device) info_96); [|reflexivity].
  unfold well_typed, is_uint32. simpl. lia.
Qed.

Lemma after_Allocate_inv st w h : atlas_inv st -> atlas_inv (after_Allocate st w h).
Proof.
  intros Hinv. unfold after_Allocate.
  destruct (Allocate st w h) as [[[st' oh] tr]|] eqn:Hal; [|done].
  by eapply Allocate_inv.
Qed.

Lemma atlas_256_two_slices_inv : atlas_inv atlas_256_two_slices.
Proof.
  unfold atlas_256_two_slices. do 2 apply after_Allocate_inv.
  apply atlas_256_inv. unfold is_uint32. lia.
Qed.

(** * The claims on the example atlases *)

(** C10: a request that passes the guards and finds no room leaves the
    usage counters as they were and reports the failure; the bucket of the
    resolved alignment exists afterwards, and every slice the failed call
    created is still there, alive and listed in that bucket.  That this
    happens shows on the 96 x 96 atlas with minimum alignment 32: a request
    of 96 x 96 resolves alignment 128, no slice has a cell for it, and the
    failed call leaves bucket 128 with three new slices. *)
Theorem failed_allocate_footprint :
  (forall (RM : RegionManager) (st : DynamicTextureAtlasImpl) w h st' tr a,
     atlas_inv st ->
     0 < w <= Width (m_Desc st) -> 0 < h <= Height (m_Desc st) ->
     resolve_alignment (m_MinAlignment st) w h = Some a ->
     Allocate st w h = Some (st', None, tr) ->
     counters st' = counters st
     /\ tr = [EvLogError (MsgFailedToSuballocate w h)]
     /\ (0 < m_MaxSliceCount st -> is_Some (m_AlignmentToSlice st' !! a))
     /\ (forall i, m_NextUnusedSlice st <= i < m_NextUnusedSlice st' ->
           (exists l, m_AlignmentToSlice st' !! a = Some l /\ i ∈ l)
           /\ exists mgr, m_Slices st' !! Z.to_nat i = Some (Some mgr)))
  /\ (exists st' tr,
        Allocate atlas_96 96 96 = Some (st', None, tr)
        /\ resolve_alignment (m_MinAlignment atlas_96) 96 96 = Some 128
        /\ counters st' = counters atlas_96
        /\ m_AlignmentToSlice atlas_96 !! 128 = None
        /\ m_AlignmentToSlice st' !! 128 = Some [0; 1; 2]
        /\ m_NextUnusedSlice atlas_96 = 0
        /\ m_NextUnusedSlice st' = 3
        /\ m_Slices atlas_96 = [None]
        /\ length (m_Slices st') = 3%nat).
Proof.
  split.
  - intros RM st w h st' tr a Hinv Hw Hh Ha Hal.
    destruct (failed_allocate_general st w h st' tr a Hinv Hw Hh Ha Hal)
      as (? & ? & _ & ? & ?). done.
  - do 2 eexists. split; [vm_compute; reflexivity|].
    split_and!; vm_compute; reflexivity.
Qed.

(** C3, what the code does instead: on the 256 x 256 atlas with two slices
    and a one-layer texture, a call of GetTexture whose device fails to
    create the new texture still raises the version from 0 to 1, records
    two layers, and drops the texture it had; the next call, with a device
    that works, sees nothing to grow and returns no texture. *)
Theorem GetTexture_failed_growth_mutates :
  exists old st' tr,
    m_pTexture atlas_256_two_slices = Some old
    /\ GetVersion atlas_256_two_slices = 0
    /\ ArraySize (m_Desc atlas_256_two_slices) = 1
    /\ length (m_Slices atlas_256_two_slices) = 2%nat
    /\ GetTexture atlas_256_two_slices (Some failing_device) (Some DeviceContext)
       = Some (st', None, tr)
    /\ GetVersion st' = 1
    /\ m_pTexture st' = None
    /\ ArraySize (m_Desc st') = 2
    /\ GetTexture st' (Some good_device) (Some DeviceContext) = Some (st', None, []).
Proof.
  do 3 eexists.
  repeat (split; [vm_compute; reflexivity|]).
  vm_compute; reflexivity.
Qed.

(** The same for every state the atlas can reach: when growth is needed and
    the device returns no texture, the version is raised and the stored
    texture is lost. *)
Lemma GetTexture_failed_growth (RM : RegionManager)
    (st : DynamicTextureAtlasImpl) dev ctx :
  atlas_inv st ->
  ArraySize (m_Desc st) < Z.of_nat (length (m_Slices st)) ->
  dev (set_ArraySize (m_Desc st) (Z.of_nat (length (m_Slices st)))) = None ->
  exists st' tr,
    GetTexture st (Some dev) (Some ctx) = Some (st', None, tr)
    /\ GetVersion st' = GetVersion st + 1
    /\ m_pTexture st' = None.
Proof.
  intros [Hs [] [] ? ? ?] Hgrow Hdev. pose proof (inv_len _ Hs) as Hlen.
  assert (Hw : wrap32 (Z.of_nat (length (m_Slices st)))
               = Z.of_nat (length (m_Slices st))).
  { apply wrap32_small. unfold is_uint32. lia. }
  destruct (GetTexture_growth st dev ctx) as (copies & Hg); [lia|].
  rewrite Hw, Hdev in Hg. do 2 eexists. split; [exact Hg|].
  split; [|done]. unfold GetVersion. simpl.
  apply wrap32_small. unfold is_uint32. lia.
Qed.

(** * The claims at concrete inputs *)

Lemma after_Allocate_steps st w h : steps st (after_Allocate st w h).
Proof.
  unfold after_Allocate.
  destruct (Allocate st w h) as [[[st' oh] tr]|] eqn:Hal; [|apply rtc_refl].
  apply rtc_once. by eapply step_Allocate.
Qed.

(** C1 fails as stated: with no minimum alignment the rule of the
    specification gives 64 for a request of 64 x 64, the source resolves 1,
    and the handle carries alignment 1. *)
Lemma alignment_unset_counterexample :
  spec_alignment 0 64 64 = 64
  /\ resolve_alignment 0 64 64 = Some 1
  /\ m_MinAlignment (atlas_256 1) = 0
  /\ exists st' hd tr,
       Allocate (atlas_256 1) 64 64 = Some (st', Some hd, tr)
       /\ m_Alignment hd = 1.
Proof.
  repeat (split; [vm_compute; reflexivity|]).
  do 3 eexists. split; vm_compute; reflexivity.
Qed.

Lemma resolve_alignment_by_design_witness :
  resolve_alignment (m_MinAlignment atlas_96) 96 96 = Some 128
  /\ spec_alignment 32 96 96 = 128.
Proof.
  split; [|reflexivity].
  refine (proj1 (resolve_alignment_by_design atlas_96 96 96 _ _ _ _));
    simpl; lia.
Defined.

Lemma allocate_destroy_roundtrip_witness :
  exists st' hd tr st'',
    Allocate (atlas_256 1) 64 64 = Some (st', Some hd, tr)
    /\ counters st' = (4096, 4096, 1)
    /\ destroy st' hd = Some st''
    /\ counters st'' = counters (atlas_256 1).
Proof.
  assert (Hal : exists st' hd tr,
            Allocate (atlas_256 1) 64 64 = Some (st', Some hd, tr)).
  { do 3 eexists. vm_compute; reflexivity. }
  destruct Hal as (st' & hd & tr & Hal).
  destruct (allocate_destroy_roundtrip (atlas_256 1) 64 64 st' hd tr
              Shelf_allocates_requested_size
              (atlas_256_inv 1 ltac:(unfold is_uint32; lia)) Hal)
    as (Hc & st'' & Hd & Hback).
  exists st', hd, tr, st''. split_and!; try done.
  rewrite Hc.
  apply Allocate_handle in Hal as (Ha & _);
    [|apply atlas_256_inv; unfold is_uint32; lia].
  injection Ha as <-. reflexivity.
Defined.



Lemma Allocate_exceeds_atlas_witness :
  Allocate (atlas_256 1) 300 10 =
    Some (atlas_256 1, None,
          [EvLogError (MsgExceedsAtlasDimensions 300 10 256 256)]).
Proof.
  refine (proj1 (Allocate_exceeds_atlas (atlas_256 1) 300 10 _)).
  left. simpl. lia.
Defined.

(** C5 fails as stated: on the 256 x 256 atlas the request 300 x 0 is wider
    than the atlas, yet the zero-size guard of line 260 returns before the
    size check of line 266 is reached, and nothing is reported. *)
Lemma Allocate_exceeds_atlas_zero_counterexample :
  300 > Width (m_Desc (atlas_256 1))
  /\ Allocate (atlas_256 1) 300 0 = Some (atlas_256 1, None, []).
Proof. split; [simpl; lia | vm_compute; reflexivity]. Qed.

Lemma GetTexture_replaces_once_witness :
  exists st' tex tr,
    GetTexture atlas_256_two_slices (Some good_device) (Some DeviceContext)
      = Some (st', tex, tr)
    /\ count_replacements tr = 1%nat
    /\ GetVersion st' = 1.
Proof.
  destruct (GetTexture_replaces_once atlas_256_two_slices good_device DeviceContext
              atlas_256_two_slices_inv) as [Hgrow _].
  destruct Hgrow as (st' & tex & tr & Hg & Hcount & _ & _ & _ & Hv);
    [vm_compute; reflexivity|].
  exists st', tex, tr. split_and!; [done | done |].
  rewrite Hv. vm_compute; reflexivity.
Defined.

(** C7 fails as stated: the configuration of the 256 x 256 atlas is none of
    the invalid ones, and construction still fails when the device cannot
    create the texture. *)
Lemma construction_texture_failure_counterexample :
  @CreateDynamicTextureAtlas ShelfManager (Some failing_device) (info_256 1) = None
  /\ ~ spec_config_invalid (info_256 1).
Proof.
  split; [reflexivity|].
  unfold spec_config_invalid. simpl. intuition (discriminate || lia).
Qed.

Lemma construction_fails_iff_witness :
  @CreateDynamicTextureAtlas ShelfManager (Some failing_device) (info_256 1) = None
  /\ @CreateDynamicTextureAtlas ShelfManager (Some good_device) (info_256 1)
     = Some (atlas_256 1).
Proof.
  split; [|reflexivity].
  apply (proj2 (construction_fails_iff (Some failing_device) (info_256 1))).
  right. exists failing_device. split_and!; [done | simpl; lia | done].
Defined.

Lemma slices_only_grow_witness :
  m_NextUnusedSlice (atlas_256 4) <= m_NextUnusedSlice atlas_256_two_slices
  /\ m_NextUnusedSlice atlas_256_two_slices = 2
  /\ m_AlignmentToSlice atlas_256_two_slices !! 1 = Some [0; 1].
Proof.
  split; [|split; vm_compute; reflexivity].
  refine (proj1 (slices_only_grow (atlas_256 4) atlas_256_two_slices _ _)).
  - apply atlas_256_inv. unfold is_uint32. lia.
  - unfold atlas_256_two_slices.
    etrans; apply after_Allocate_steps.
Defined.

Lemma suballocation_accessors_witness :
  exists st' hd tr,
    Allocate (after_Allocate (atlas_256 1) 64 64) 200 50 = Some (st', Some hd, tr)
    /\ GetOrigin hd = (0, 64)
    /\ GetSize hd = (200, 50)
    /\ GetSlice hd = 0
    /\ GetUVScaleBias (m_Desc st') hd =
         (float_div (float_of_uint32 200) (float_of_uint32 256),
          float_div (float_of_uint32 50) (float_of_uint32 256),
          float_div (float_of_uint32 0) (float_of_uint32 256),
          float_div (float_of_uint32 64) (float_of_uint32 256)).
Proof.
  assert (Hal : exists st' hd tr,
            Allocate (after_Allocate (atlas_256 1) 64 64) 200 50
              = Some (st', Some hd, tr)
            /\ m_Subregion hd = {| Region.x := 0; Region.y := 64;
                                   Region.width := 200; Region.height := 50 |}
            /\ m_Alignment hd = 1 /\ m_Slice hd = 0).
  { do 3 eexists. repeat (split; [vm_compute; reflexivity|]).
    vm_compute; reflexivity. }
  destruct Hal as (st' & hd & tr & Hal & Hr & Ha & Hs).
  destruct (suballocation_accessors (after_Allocate (atlas_256 1) 64 64)
              200 50 st' hd tr) as (Ho & Hsz & _ & Huv).
  - apply after_Allocate_inv, atlas_256_inv. unfold is_uint32. lia.
  - exact Hal.
  - rewrite Hr, Ha. unfold is_uint32. simpl. lia.
  - rewrite Hr, Ha. unfold is_uint32. simpl. lia.
  - exists st', hd, tr. rewrite Hr, Ha in Ho, Huv.
    split_and!; try done.
Defined.

Lemma failed_allocate_footprint_witness :
  exists st' tr,
    Allocate atlas_96 96 96 = Some (st', None, tr)
    /\ counters st' = counters atlas_96
    /\ is_Some (m_AlignmentToSlice st' !! 128).
Proof.
  assert (Hal : exists st' tr, Allocate atlas_96 96 96 = Some (st', None, tr)).
  { do 2 eexists. vm_compute; reflexivity. }
  destruct Hal as (st' & tr & Hal).
  destruct (proj1 failed_allocate_footprint ShelfManager atlas_96 96 96 st' tr 128)
    as (Hc & _ & Hb & _).
  - apply atlas_96_inv.
  - simpl. lia.
  - simpl. lia.
  - reflexivity.
  - exact Hal.
  - exists st', tr. split_and!; [done | done |]. apply Hb. simpl. lia.
Defined.

(** * Further properties of the code *)

(** ** GetTexture *)

Section TextureFacts.
Context {RM : RegionManager}.
Implicit Types st : DynamicTextureAtlasImpl.

(** X9: GetTexture twice in a row: the second call finds as many layers as
    slices, whatever the first one did, asks for nothing and returns the
    texture the first call left. *)
Theorem GetTexture_idempotent st pDevice pContext st' tex tr :
  GetTexture st pDevice pContext = Some (st', tex, tr) ->
  tex = m_pTexture st'
  /\ forall pDevice' pContext',
       GetTexture st' pDevice' pContext' = Some (st', tex, []).
Proof.
  intros Hg.
  assert (Hshape : tex = m_pTexture st'
            /\ ArraySize (m_Desc st') = wrap32 (Z.of_nat (length (m_Slices st')))).
  { unfold GetTexture in Hg.
    destruct (Z.eqb_spec (ArraySize (m_Desc st))
                (wrap32 (Z.of_nat (length (m_Slices st))))) as [He|Hne];
      simpl in Hg.
    - by injection Hg as <- <- _.
    - destruct pDevice as [dev|]; [|done].
      match type of Hg with context [match ?c with [] => _ | _ :: _ => _ end] =>
        destruct c end; [|destruct pContext]; try done;
        injection Hg as <- <- _; done. }
  destruct Hshape as [-> Harr]. split; [done|].
  intros pDevice' pContext'. by apply GetTexture_no_growth.
Qed.

Lemma copy_requests_elem pSrc pDst d (c : CopyTextureAttribs) :
  c ∈ copy_requests pSrc pDst d
  <-> exists slice mip,
        0 <= slice < ArraySize d /\ 0 <= mip < MipLevels d
        /\ c = {| pSrcTexture := pSrc; pDstTexture := pDst;
                  SrcSlice := slice; DstSlice := slice;
                  SrcMipLevel := mip; DstMipLevel := mip |}.
Proof.
  unfold copy_requests. rewrite list_elem_of_In, in_flat_map. split.
  - intros (slice & Hs%list_elem_of_In%elem_of_seqZ
            & (mip & <- & Hm%list_elem_of_In%elem_of_seqZ)%in_map_iff).
    exists slice, mip. split_and!; done || lia.
  - intros (slice & mip & Hs & Hm & ->). exists slice. split.
    + apply list_elem_of_In, elem_of_seqZ. lia.
    + apply in_map_iff. exists mip. split; [done|].
      apply list_elem_of_In, elem_of_seqZ. lia.
Qed.

Lemma copy_requests_length pSrc pDst d :
  length (copy_requests pSrc pDst d)
  = (Z.to_nat (ArraySize d) * Z.to_nat (MipLevels d))%nat.
Proof.
  unfold copy_requests.
  rewrite (flat_map_constant_length (c := Z.to_nat (MipLevels d))).
  - by rewrite length_seqZ.
  - intros slice _. by rewrite length_map, length_seqZ.
Qed.

(** X10: The migration of lines 227-248: when the atlas grows and holds a
    texture, the context is asked for one copy per slice and mip level of
    the stale texture, each from the stale texture to the new one at the
    same slice and mip, after the one texture creation and the log entry;
    nothing else is asked of it. *)
Theorem GetTexture_copies_every_subresource st dev ctx stale :
  ArraySize (m_Desc st) <> wrap32 (Z.of_nat (length (m_Slices st))) ->
  m_pTexture st = Some stale ->
  exists st' tex copies,
    GetTexture st (Some dev) (Some ctx)
      = Some (st', tex,
              EvCreateTexture (m_Desc st')
              :: EvLogInfo (MsgExpandingTextureArray (ArraySize (m_Desc st'))
                                                     (GetVersion st'))
              :: map EvCopyTexture copies)
    /\ length copies
       = (Z.to_nat (ArraySize (GetDesc stale))
          * Z.to_nat (MipLevels (GetDesc stale)))%nat
    /\ forall c, c ∈ copies <->
         exists slice mip,
           0 <= slice < ArraySize (GetDesc stale)
           /\ 0 <= mip < MipLevels (GetDesc stale)
           /\ c = {| pSrcTexture := Some stale; pDstTexture := tex;
                     SrcSlice := slice; DstSlice := slice;
                     SrcMipLevel := mip; DstMipLevel := mip |}.
Proof.
  intros Hne Hstale. unfold GetTexture.
  destruct (Z.eqb_spec (ArraySize (m_Desc st))
              (wrap32 (Z.of_nat (length (m_Slices st))))); [done|].
  cbn [negb]. rewrite Hstale.
  set (desc := set_ArraySize (m_Desc st) (wrap32 (Z.of_nat (length (m_Slices st))))).
  exists (set_texture st desc (dev desc) (wrap32 (m_Version st + 1))),
         (dev desc), (copy_requests (Some stale) (dev desc) (GetDesc stale)).
  split_and!.
  - by destruct (copy_requests (Some stale) (dev desc) (GetDesc stale)).
  - apply copy_requests_length.
  - intros c. apply copy_requests_elem.
Qed.

(** X11: What GetTexture needs its arguments for.  With as many layers as
    slices neither pointer is read.  When the atlas must grow, a null device
    leaves the call without result; the context is read only to copy, so
    an atlas that holds no texture yet grows with a null context, issuing
    no copy, and an atlas whose texture has a slice and a mip level has no
    result with a null context. *)
Theorem GetTexture_null_arguments st :
  ArraySize (m_Desc st) <> wrap32 (Z.of_nat (length (m_Slices st))) ->
  (forall pContext, GetTexture st None pContext = None)
  /\ (m_pTexture st = None ->
      forall dev, exists st',
        GetTexture st (Some dev) None
          = Some (st', m_pTexture st',
                  [EvCreateTexture (m_Desc st');
                   EvLogInfo (MsgExpandingTextureArray (ArraySize (m_Desc st'))
                                                       (GetVersion st'))])
        /\ m_pTexture st' = dev (m_Desc st'))
  /\ (forall stale dev,
        m_pTexture st = Some stale ->
        0 < ArraySize (GetDesc stale) -> 0 < MipLevels (GetDesc stale) ->
        GetTexture st (Some dev) None = None).
Proof.
  intros Hne. unfold GetTexture.
  destruct (Z.eqb_spec (ArraySize (m_Desc st))
              (wrap32 (Z.of_nat (length (m_Slices st))))); [done|].
  cbn [negb]. split_and!.
  - done.
  - intros -> dev.
    exists (set_texture st
              (set_ArraySize (m_Desc st) (wrap32 (Z.of_nat (length (m_Slices st)))))
              (dev (set_ArraySize (m_Desc st)
                      (wrap32 (Z.of_nat (length (m_Slices st))))))
              (wrap32 (m_Version st + 1))).
    split; reflexivity.
  - intros stale dev -> Hs Hm.
    destruct (copy_requests _ _ _) as [|c cs] eqn:Hc; [|done].
    exfalso.
    assert (Hin : {| pSrcTexture := Some stale;
                     pDstTexture := dev (set_ArraySize (m_Desc st)
                        (wrap32 (Z.of_nat (length (m_Slices st)))));
                     SrcSlice := 0; DstSlice := 0;
                     SrcMipLevel := 0; DstMipLevel := 0 |}
                  ∈ copy_requests (Some stale)
                      (dev (set_ArraySize (m_Desc st)
                         (wrap32 (Z.of_nat (length (m_Slices st))))))
                      (GetDesc stale)).
    { apply copy_requests_elem. exists 0, 0. split_and!; done || lia. }
    rewrite Hc in Hin. by apply elem_of_nil in Hin.
Qed.

End TextureFacts.

(** ** The version and the descriptor *)

Section VersionFacts.
Context {RM : RegionManager}.
Implicit Types st : DynamicTextureAtlasImpl.

Lemma GetTexture_cases st pDevice pContext st' tex tr :
  GetTexture st pDevice pContext = Some (st', tex, tr) ->
  st' = st
  \/ ArraySize (m_Desc st) <> wrap32 (Z.of_nat (length (m_Slices st)))
     /\ st' = set_texture st
                (set_ArraySize (m_Desc st) (wrap32 (Z.of_nat (length (m_Slices st)))))
                tex (wrap32 (m_Version st + 1)).
Proof.
  unfold GetTexture.
  destruct (Z.eqb_spec (ArraySize (m_Desc st))
              (wrap32 (Z.of_nat (length (m_Slices st))))); simpl.
  { intros [= <- _ _]. by left. }
  destruct pDevice as [dev|]; [|done].
  match goal with |- context [match ?c with [] => _ | _ :: _ => _ end] =>
    destruct c end; [|destruct pContext];
    try done; intros [= <- <- _]; right; done.
Qed.

Lemma Allocate_unguarded st w h st' oh tr :
  struct_inv st ->
  Allocate st w h = Some (st', oh, tr) ->
  m_Desc st' = m_Desc st /\ m_pTexture st' = m_pTexture st
  /\ m_Version st' = m_Version st.
Proof.
  intros Hs Hal.
  destruct (Allocate_inversion _ _ _ _ _ _ Hs Hal)
    as [(-> & _)|(_ & _ & _ & _ & a & p & _ & [(Hp & -> & _)|(Hp & -> & _)])].
  - done.
  - destruct Hp as [_ _ (? & ? & ? & _) _ _ _]. done.
  - destruct Hp as [_ _ (? & ? & ? & _) _ _ _ _ _]. done.
Qed.

(** How the texture side of the atlas may differ between an earlier and a
    later state. *)
Lemma step_texture st st' :
  atlas_inv st -> step st st' ->
  set_ArraySize (m_Desc st') 0 = set_ArraySize (m_Desc st) 0
  /\ ArraySize (m_Desc st) <= ArraySize (m_Desc st')
  /\ 0 <= m_Version st' - m_Version st
       <= ArraySize (m_Desc st') - ArraySize (m_Desc st)
  /\ (m_Version st' = m_Version st ->
      m_pTexture st' = m_pTexture st /\ m_Desc st' = m_Desc st).
Proof.
  intros Hinv [w h oh tr Hal|Slice a r w h Hf|dev ctx tex tr Hg].
  - apply Allocate_unguarded in Hal as (-> & -> & ->); [|apply Hinv].
    split_and!; done || lia.
  - apply Free_Some in Hf as (mgr & _ & ->). simpl. split_and!; done || lia.
  - apply GetTexture_cases in Hg as [->|[Hne ->]]; [split_and!; done || lia|].
    destruct Hinv as [Hs [] [] _ _ _]. pose proof (inv_len _ Hs).
    rewrite wrap32_small in * by (unfold is_uint32; lia). simpl.
    rewrite wrap32_small by (unfold is_uint32; lia).
    split_and!; try done; try lia.
Qed.

Lemma steps_texture st st' :
  atlas_inv st -> steps st st' ->
  set_ArraySize (m_Desc st') 0 = set_ArraySize (m_Desc st) 0
  /\ ArraySize (m_Desc st) <= ArraySize (m_Desc st')
  /\ 0 <= m_Version st' - m_Version st
       <= ArraySize (m_Desc st') - ArraySize (m_Desc st)
  /\ (m_Version st' = m_Version st ->
      m_pTexture st' = m_pTexture st /\ m_Desc st' = m_Desc st).
Proof.
  intros Hinv Hsteps.
  induction Hsteps as [st|st1 st2 st3 H12 _ IH].
  - split_and!; done || lia.
  - destruct (step_inv _ _ Hinv H12) as [Hinv2 _].
    destruct (step_texture _ _ Hinv H12) as (Ed & Ha & Hv & Hsame).
    destruct (IH Hinv2) as (Ed' & Ha' & Hv' & Hsame').
    split_and!; try lia; [congruence|].
    intros Heq.
    destruct Hsame as [Et Edesc]; [lia|].
    destruct Hsame' as [Et' Edesc']; [lia|]. split; congruence.
Qed.


(** Allocate and the destruction of a handle never touch the texture, the
    descriptor or the version. *)
Lemma allocation_leaves_texture st w h st' oh tr :
  atlas_inv st -> Allocate st w h = Some (st', oh, tr) ->
  m_Desc st' = m_Desc st /\ m_pTexture st' = m_pTexture st
  /\ GetVersion st' = GetVersion st.
Proof. intros [Hs _ _ _ _ _]. by apply Allocate_unguarded. Qed.

End VersionFacts.

(** ** The alignment of a request *)

Lemma IsPowerOfTwo_pow2 k : 0 <= k -> IsPowerOfTwo (2 ^ k) = true.
Proof.
  intros Hk. unfold IsPowerOfTwo.
  pose proof (Z.pow_pos_nonneg 2 k ltac:(lia) Hk).
  destruct (Z.ltb_spec 0 (2 ^ k)); [|lia]. simpl.
  replace (2 ^ k - 1) with (Z.ones k) by (rewrite Z.ones_equiv; lia).
  rewrite Z.land_ones, Z_mod_same_full by done. reflexivity.
Qed.

Lemma IsPowerOfTwo_inv v :
  IsPowerOfTwo v = true -> exists k, 0 <= k /\ v = 2 ^ k.
Proof.
  unfold IsPowerOfTwo. intros [Hpos Hland]%andb_prop.
  apply Z.ltb_lt in Hpos. apply Z.eqb_eq in Hland.
  exists (Z.log2 v). split; [apply Z.log2_nonneg|].
  destruct (Z.log2_spec v Hpos) as [Hlo Hhi].
  destruct (Z.eq_dec v (2 ^ Z.log2 v)) as [|Hne]; [done|]. exfalso.
  pose proof (Z.pow_pos_nonneg 2 (Z.log2 v) ltac:(lia) (Z.log2_nonneg v)) as Hp.
  assert (Hlog : Z.log2 (v - 1) = Z.log2 v).
  { apply Z.log2_unique; [apply Z.log2_nonneg | lia]. }
  assert (Hbit : Z.testbit (Z.land v (v - 1)) (Z.log2 v) = true).
  { rewrite Z.land_spec, Z.bit_log2 by done.
    rewrite <- Hlog, Z.bit_log2 by lia. done. }
  rewrite Hland, Z.bits_0 in Hbit. done.
Qed.

Lemma align_loop_pow2 fuel m : forall k a,
  0 <= k < 32 ->
  align_loop fuel m (2 ^ k) = Some a ->
  exists j, k <= j < 32 /\ a = 2 ^ j /\ m <= a /\ (j = k \/ a < 2 * m).
Proof.
  induction fuel as [|fuel IH]; intros k a Hk; simpl;
    destruct (Z.gtb_spec m (2 ^ k)) as [Hgt|Hle]; try done;
    try (intros [= <-]; exists k; split_and!; lia || auto).
  pose proof (Z.pow_pos_nonneg 2 k ltac:(lia) ltac:(lia)) as Hpos.
  replace (2 ^ k * 2) with (2 ^ (k + 1)) by (rewrite Z.pow_add_r; lia).
  destruct (Z.eq_dec k 31) as [->|Hk31].
  - change (wrap32 (2 ^ (31 + 1))) with 0.
    rewrite align_loop_zero by lia. done.
  - assert (Hlt : 2 ^ (k + 1) < 2 ^ 32) by (apply Z.pow_lt_mono_r; lia).
    rewrite wrap32_small
      by (unfold is_uint32; pose proof (Z.pow_pos_nonneg 2 (k + 1)); lia).
    intros Hloop. apply IH in Hloop as (j & Hj & -> & Hm & Hor); [|lia].
    exists j. split_and!; try done; try lia.
    right. destruct Hor as [->|?]; [|done].
    rewrite Z.pow_add_r by lia. lia.
Qed.

(** X13: With a minimum alignment that is a power of two, as the constructor
    demands, an alignment that resolves is again a power of two below 2^32,
    a multiple of the minimum alignment, and at least min(width, height);
    unless it is the minimum alignment itself it is less than twice
    min(width, height). *)
Theorem resolved_alignment_bounds MinAlign w h a :
  IsPowerOfTwo MinAlign = true -> is_uint32 MinAlign ->
  resolve_alignment MinAlign w h = Some a ->
  IsPowerOfTwo a = true
  /\ MinAlign <= a < 2 ^ 32
  /\ (MinAlign | a)
  /\ Z.min w h <= a
  /\ (a = MinAlign \/ a < 2 * Z.min w h).
Proof.
  intros Hp Hu Hres.
  destruct (IsPowerOfTwo_inv _ Hp) as (k & Hk & ->).
  assert (Hk32 : k < 32).
  { destruct (Z.lt_ge_cases k 32); [done|].
    pose proof (Z.pow_le_mono_r 2 32 k). unfold is_uint32 in Hu. lia. }
  unfold resolve_alignment in Hres.
  pose proof (Z.pow_pos_nonneg 2 k ltac:(lia) Hk) as Hpos.
  destruct (Z.gtb_spec (2 ^ k) 0); [|lia].
  apply align_loop_pow2 in Hres as (j & Hj & -> & Hm & Hor); [|lia].
  split_and!.
  - apply IsPowerOfTwo_pow2. lia.
  - apply Z.pow_le_mono_r; lia.
  - apply Z.pow_lt_mono_r; lia.
  - exists (2 ^ (j - k)). rewrite <- Z.pow_add_r by lia. f_equal. lia.
  - done.
  - destruct Hor as [->|?]; auto.
Qed.

(** X14: A request whose smaller side is above 2^31: the doubling of a
    power-of-two minimum alignment wraps to zero before it reaches that
    side, the loop of lines 275-276 never ends, and Allocate does not
    return. *)
Theorem alignment_loop_overflow {RM : RegionManager}
    (st : DynamicTextureAtlasImpl) w h :
  IsPowerOfTwo (m_MinAlignment st) = true -> is_uint32 (m_MinAlignment st) ->
  2 ^ 31 < w <= Width (m_Desc st) -> 2 ^ 31 < h <= Height (m_Desc st) ->
  (forall fuel, align_loop fuel (Z.min w h) (m_MinAlignment st) = None)
  /\ Allocate st w h = None.
Proof.
  intros Hp Hu Hw Hh.
  destruct (IsPowerOfTwo_inv _ Hp) as (k & Hk & Hmin).
  assert (Hk32 : k < 32).
  { destruct (Z.lt_ge_cases k 32); [done|].
    pose proof (Z.pow_le_mono_r 2 32 k). unfold is_uint32 in Hu. lia. }
  assert (Hloop : forall fuel,
            align_loop fuel (Z.min w h) (m_MinAlignment st) = None).
  { intros fuel. rewrite Hmin.
    destruct (align_loop fuel (Z.min w h) (2 ^ k)) as [a|] eqn:Ha; [|done].
    apply align_loop_pow2 in Ha as (j & Hj & -> & Hm & _); [|lia].
    pose proof (Z.pow_le_mono_r 2 j 31). lia. }
  split; [done|]. unfold Allocate.
  destruct (Z.eqb_spec w 0); [lia|]. destruct (Z.eqb_spec h 0); [lia|].
  destruct (Z.gtb_spec w (Width (m_Desc st))); [lia|].
  destruct (Z.gtb_spec h (Height (m_Desc st))); [lia|]. cbn [orb].
  unfold resolve_alignment.
  pose proof (Z.pow_pos_nonneg 2 k ltac:(lia) Hk).
  destruct (Z.gtb_spec (m_MinAlignment st) 0); [|lia].
  by rewrite Hloop.
Qed.

(** ** When Allocate returns and when it does not *)

Section Termination.
Context {RM : RegionManager}.
Implicit Types st : DynamicTextureAtlasImpl.

(** X15: From a state the atlas can reach in which a slice can be added (the
    growth increment is set and does not wrap, or capacity doubles and the
    collection is not empty), every later Allocate returns for every
    request whose smaller side is at most 2^31. *)
Theorem Allocate_returns st0 st w h :
  atlas_inv st0 -> can_grow st0 -> steps st0 st ->
  0 <= m_MinAlignment st0 -> Z.min w h <= 2 ^ 31 ->
  exists st' oh tr, Allocate st w h = Some (st', oh, tr).
Proof.
  intros Hinv Hgrow Hsteps Hmin Hm.
  destruct (steps_inv _ _ Hinv Hsteps) as [Hinv' Hle].
  destruct (Allocate_total st w h) as [[[st' oh] tr] Hal].
  - done.
  - by eapply can_grow_le.
  - rewrite (le_min_alignment _ _ Hle).
    destruct (Z.eq_dec (m_MinAlignment st0) 0) as [->|Hnz].
    + by rewrite resolve_alignment_unset.
    + rewrite resolve_alignment_nonzero by lia. done.
  - by exists st', oh, tr.
Qed.

(** X16: An atlas with no slice at all whose capacity is to double (growth
    increment 0): the first request that passes the guards finds nothing to
    double, line 317 resizes the empty collection to empty for ever, and
    Allocate does not return. *)
Theorem Allocate_cannot_double_nothing st w h a :
  struct_inv st ->
  m_Slices st = [] -> m_ExtraSliceCount st = 0 -> 0 < m_MaxSliceCount st ->
  0 < w <= Width (m_Desc st) -> 0 < h <= Height (m_Desc st) ->
  resolve_alignment (m_MinAlignment st) w h = Some a ->
  (forall fuel,
     resize_slices fuel 0 (m_ExtraSliceCount st) (m_MaxSliceCount st)
                   (m_Slices st) = None)
  /\ Allocate st w h = None.
Proof.
  intros Hs Hnil Hextra Hmax Hw Hh Ha.
  assert (Hnext : m_NextUnusedSlice st = 0).
  { pose proof (inv_next _ Hs). pose proof (inv_next_len _ Hs) as Hl.
    rewrite Hnil in Hl. simpl in Hl. lia. }
  assert (Hres : forall fuel,
            resize_slices fuel 0 (m_ExtraSliceCount st) (m_MaxSliceCount st)
                          (m_Slices st) = None).
  { intros fuel. rewrite Hextra, Hnil.
    apply resize_slices_stuck_empty; [lia | done]. }
  split; [done|]. unfold Allocate.
  destruct (Z.eqb_spec w 0); [lia|]. destruct (Z.eqb_spec h 0); [lia|].
  destruct (Z.gtb_spec w (Width (m_Desc st))); [lia|].
  destruct (Z.gtb_spec h (Height (m_Desc st))); [lia|]. cbn [orb].
  rewrite Ha. unfold placement_fuel. cbn [placement_loop pl_Slice pl_atlas].
  destruct (Z.ltb_spec 0 (m_MaxSliceCount st)); [|lia].
  assert (Hsel : select_slice a st 0 = None).
  { unfold select_slice.
    destruct (find_or_emplace_lookup a (m_AlignmentToSlice st)) as (l & Hl & _).
    rewrite Hl. simpl default.
    pose proof (find_or_emplace_struct_inv st a Hs) as Hs1.
    destruct (find_next_slice l 0) as [s|] eqn:Hfind.
    { apply find_next_slice_Some in Hfind as [Hin _].
      pose proof (inv_bucket_range _ Hs1 a l s Hl Hin) as Hr.
      simpl in Hr. lia. }
    rewrite Z.eqb_refl, Hnext.
    destruct (Z.eqb_spec 0 (m_MaxSliceCount st)); [lia|].
    by rewrite Hres. }
  unfold placement_step. cbn [pl_Slice pl_atlas]. by rewrite Hsel.
Qed.

End Termination.

(** ** Handles and the usage counters *)

Lemma wrap_s64_add_l u v : wrap_s64 (wrap_s64 u + v) = wrap_s64 (u + v).
Proof.
  unfold wrap_s64.
  replace ((u + 2 ^ 63) mod 2 ^ 64 - 2 ^ 63 + v + 2 ^ 63)
    with ((u + 2 ^ 63) mod 2 ^ 64 + v) by lia.
  rewrite Zplus_mod_idemp_l. f_equal. f_equal. lia.
Qed.

Lemma wrap_s64_add_r u v : wrap_s64 (u + wrap_s64 v) = wrap_s64 (u + v).
Proof. by rewrite Z.add_comm, wrap_s64_add_l, Z.add_comm. Qed.

Lemma wrap_s32_add_l u v : wrap_s32 (wrap_s32 u + v) = wrap_s32 (u + v).
Proof.
  unfold wrap_s32.
  replace ((u + 2 ^ 31) mod 2 ^ 32 - 2 ^ 31 + v + 2 ^ 31)
    with ((u + 2 ^ 31) mod 2 ^ 32 + v) by lia.
  rewrite Zplus_mod_idemp_l. f_equal. f_equal. lia.
Qed.

Section HandleFacts.
Context {RM : RegionManager}.
Implicit Types st : DynamicTextureAtlasImpl.
Implicit Types hd : TextureAtlasSuballocationImpl.

Lemma total_app (f : TextureAtlasSuballocationImpl -> Z) hs1 hs2 :
  total f (hs1 ++ hs2) = total f hs1 + total f hs2.
Proof. induction hs1 as [|hd hs1 IH]; simpl; lia. Qed.

Lemma history_steps st0 hs st : history st0 hs st -> steps st0 st.
Proof.
  induction 1 as [|hs st w h st' hd tr _ IH Hal|hs st w h st' tr _ IH Hal
                 |hs1 hd hs2 st st' _ IH Hd|hs st dev ctx st' tex tr _ IH Hg].
  - apply rtc_refl.
  - eapply rtc_r; [exact IH|]. by eapply step_Allocate.
  - eapply rtc_r; [exact IH|]. by eapply step_Allocate.
  - eapply rtc_r; [exact IH|]. by eapply step_Free.
  - eapply rtc_r; [exact IH|]. by eapply step_GetTexture.
Qed.

(** What a successful call adds to the counters is what destroying its
    handle will take off. *)
Lemma Allocate_areas st w h st' hd tr :
  allocates_requested_size -> struct_inv st ->
  Allocate st w h = Some (st', Some hd, tr) ->
  requested_area hd = w * h
  /\ reserved_area hd
     = AlignUp w (m_Alignment hd) * AlignUp h (m_Alignment hd).
Proof.
  intros Hcontract Hs Hal.
  apply Allocate_handle in Hal
    as (Hres & Hsize & Hne & (mgr & Hr & _) & _); [|done].
  apply resolve_alignment_pos in Hres.
  unfold requested_area, reserved_area. rewrite Hsize. split; [done|].
  rewrite Hr in Hne. destruct (Hcontract _ _ _ Hne) as [Hrw Hrh].
  rewrite <- Hr in Hrw, Hrh.
  rewrite Hrw, Hrh, !AlignUp_multiple by lia.
  by rewrite !wrap32_small by (by apply AlignUp_range).
Qed.

Lemma Allocate_failed_counters st w h st' tr :
  struct_inv st -> Allocate st w h = Some (st', None, tr) ->
  counters st' = counters st.
Proof.
  intros Hs Hal.
  destruct (Allocate_inversion _ _ _ _ _ _ Hs Hal)
    as [(-> & _)|(_ & _ & _ & _ & a & p & _ & [(Hp & -> & _)|(_ & _ & ? & _)])];
    [done | | done].
  by destruct Hp as [_ _ (_ & _ & _ & ?) _ _ _].
Qed.

Lemma history_counters st0 hs st :
  allocates_requested_size -> atlas_inv st0 -> history st0 hs st ->
  m_AllocatedArea st
    = wrap_s64 (m_AllocatedArea st0 + total requested_area hs)
  /\ m_UsedArea st = wrap_s64 (m_UsedArea st0 + total reserved_area hs)
  /\ m_AllocationCount st
     = wrap_s32 (m_AllocationCount st0 + Z.of_nat (length hs)).
Proof.
  intros Hcontract Hinv Hhist.
  induction Hhist as [|hs st w h st' hd tr Hh IH Hal|hs st w h st' tr Hh IH Hal
                     |hs1 hd hs2 st st' Hh IH Hd|hs st dev ctx st' tex tr Hh IH Hg].
  - destruct Hinv as [_ _ _ Hc Ha Hu]. simpl.
    rewrite !Z.add_0_r, !wrap_s64_small, wrap_s32_small; done.
  - destruct IH as (Ea & Eu & Ec).
    destruct (steps_inv _ _ Hinv (history_steps _ _ _ Hh)) as [[Hs _ _ _ _ _] _].
    destruct (Allocate_areas _ _ _ _ _ _ Hcontract Hs Hal) as [Hreq Hres].
    apply Allocate_handle in Hal as (_ & _ & _ & _ & _ & _ & _ & Ec' & Ea' & Eu');
      [|done].
    rewrite Ea', Eu', Ec', Ea, Eu, Ec. simpl total. rewrite Hreq, Hres.
    rewrite !wrap_s64_add_l, !wrap_s64_add_r, wrap_s32_add_l.
    split_and!; f_equal; simpl length; lia.
  - destruct (steps_inv _ _ Hinv (history_steps _ _ _ Hh)) as [[Hs _ _ _ _ _] _].
    apply Allocate_failed_counters in Hal; [|done].
    unfold counters in Hal. injection Hal as -> -> ->. done.
  - destruct IH as (Ea & Eu & Ec).
    apply Free_Some in Hd as (mgr & _ & ->). simpl.
    rewrite Ea, Eu, Ec, !total_app, !length_app. simpl.
    rewrite !wrap_s64_add_l, !wrap_s64_add_r, wrap_s32_add_l.
    unfold requested_area, reserved_area. split_and!; f_equal; lia.
  - apply GetTexture_cases in Hg as [->|[_ ->]]; done.
Qed.

(** X1: The usage counters are a ledger of the handles alive: at every point of
    a history that starts in a state the atlas can reach, with a region
    manager whose regions have the size asked for, the allocated area is
    the start value plus the requested areas of the handles alive, the
    used area the start value plus their reserved areas, and the count the
    start value plus their number (each in the arithmetic of its
    counter). *)
Theorem usage_counters_account st0 hs st :
  allocates_requested_size -> atlas_inv st0 -> history st0 hs st ->
  m_AllocatedArea st
    = wrap_s64 (m_AllocatedArea st0 + total requested_area hs)
  /\ m_UsedArea st = wrap_s64 (m_UsedArea st0 + total reserved_area hs)
  /\ m_AllocationCount st
     = wrap_s32 (m_AllocationCount st0 + Z.of_nat (length hs)).
Proof. apply history_counters. Qed.

(** X2: What the destructor of the atlas asserts (lines 197-199): once every
    handle handed out since construction has been destroyed, in whatever
    order and with whatever else happened in between, the three counters
    are zero. *)
Theorem drained_atlas_counters_zero pDevice CreateInfo st0 st :
  allocates_requested_size -> well_typed CreateInfo ->
  construct pDevice CreateInfo = inr st0 ->
  history st0 [] st ->
  m_AllocatedArea st = 0 /\ m_UsedArea st = 0 /\ m_AllocationCount st = 0.
Proof.
  intros Hcontract Hty Hc Hhist.
  pose proof (construct_inv _ _ _ Hty Hc) as Hinv.
  destruct (history_counters _ _ _ Hcontract Hinv Hhist) as (-> & -> & ->).
  assert (Hzero : counters st0 = (0, 0, 0)).
  { unfold construct in Hc. destruct (validate _ _); [done|].
    destruct pDevice as [dev|].
    - destruct (ArraySize (Desc CreateInfo) >? 0).
      + destruct (dev (Desc CreateInfo)); [|done]. by injection Hc as <-.
      + by injection Hc as <-.
    - by injection Hc as <-. }
  unfold counters in Hzero. injection Hzero as -> -> ->. done.
Qed.

(** X3: A handle can be destroyed at any later time: whatever calls returned
    in between, its slice is still there, the destructor has a result,
    and it changes nothing but the three counters and the manager of that
    one slice. *)
Theorem handle_stays_releasable st w h st1 hd tr st2 :
  atlas_inv st -> Allocate st w h = Some (st1, Some hd, tr) ->
  steps st1 st2 ->
  exists st3 mgr,
    destroy st2 hd = Some st3
    /\ m_Slices st2 !! Z.to_nat (GetSlice hd) = Some (Some mgr)
    /\ m_Slices st3
       = <[Z.to_nat (GetSlice hd) := Some (Mgr_Free mgr (m_Subregion hd))]>
           (m_Slices st2)
    /\ m_AlignmentToSlice st3 = m_AlignmentToSlice st2
    /\ m_NextUnusedSlice st3 = m_NextUnusedSlice st2
    /\ m_Desc st3 = m_Desc st2 /\ m_pTexture st3 = m_pTexture st2
    /\ GetVersion st3 = GetVersion st2.
Proof.
  intros Hinv Hal Hsteps.
  pose proof (Allocate_inv _ _ _ _ _ _ Hinv Hal) as Hinv1.
  destruct Hinv as [Hs _ _ _ _ _].
  apply Allocate_handle in Hal as (_ & _ & _ & (mgr0 & _ & Hslot) & _); [|done].
  destruct (steps_inv _ _ Hinv1 Hsteps) as [_ Hle].
  destruct (le_slices _ _ Hle _ _ Hslot) as (mgr & Hmgr & _).
  unfold destroy, GetSlice. rewrite (Free_live _ _ _ _ _ _ _ Hmgr).
  eexists _, mgr. split_and!; done.
Qed.

End HandleFacts.

(** ** How far the slices go *)

Section SliceBounds.
Context {RM : RegionManager}.
Implicit Types st : DynamicTextureAtlasImpl.

Lemma construct_config pDevice CreateInfo st0 :
  construct pDevice CreateInfo = inr st0 ->
  m_MaxSliceCount st0 = max_slice_count CreateInfo
  /\ m_MinAlignment st0 = MinAlignment CreateInfo
  /\ m_ExtraSliceCount st0 = ExtraSliceCount CreateInfo
  /\ validate (Desc CreateInfo) (MinAlignment CreateInfo) = None
  /\ set_ArraySize (m_Desc st0) 0 = set_ArraySize (Desc CreateInfo) 0
  /\ length (m_Slices st0) = Z.to_nat (ArraySize (Desc CreateInfo)).
Proof.
  unfold construct. destruct (validate _ _); [done|].
  destruct pDevice as [dev|].
  - destruct (ArraySize (Desc CreateInfo) >? 0).
    + destruct (dev (Desc CreateInfo)); [|done].
      intros [= <-]. simpl. by rewrite length_replicate.
    + intros [= <-]. simpl. by rewrite length_replicate.
  - intros [= <-]. simpl. by rewrite length_replicate.
Qed.

(** X4: The slice of a handle: for an atlas built from [CreateInfo], at any
    later time, a handle's slice index is below the slice count the
    constructor settled on, which is at most 2048 and is 1 unless the
    texture is a 2D array, so that every handle of a plain 2D atlas is in
    slice 0; and the slice exists in the collection. *)
Theorem handle_slice_in_range pDevice CreateInfo st0 st w h st' hd tr :
  well_typed CreateInfo ->
  construct pDevice CreateInfo = inr st0 ->
  steps st0 st ->
  Allocate st w h = Some (st', Some hd, tr) ->
  0 <= GetSlice hd < max_slice_count CreateInfo
  /\ max_slice_count CreateInfo <= 2048
  /\ GetSlice hd < Z.of_nat (length (m_Slices st'))
  /\ (Type_ (Desc CreateInfo) <> RESOURCE_DIM_TEX_2D_ARRAY -> GetSlice hd = 0).
Proof.
  intros Hty Hc Hsteps Hal.
  pose proof (construct_inv _ _ _ Hty Hc) as Hinv0.
  destruct (construct_config _ _ _ Hc) as (Emax & _).
  destruct (steps_inv _ _ Hinv0 Hsteps) as [Hinv Hle].
  pose proof (Allocate_inv _ _ _ _ _ _ Hinv Hal) as [Hs' _ _ _ _ _].
  destruct (Allocate_structure _ _ _ _ _ _ (inv_struct _ Hinv) Hal) as [_ Hle'].
  apply Allocate_handle in Hal as (_ & _ & _ & _ & _ & Hr & _);
    [|apply Hinv].
  pose proof (inv_next _ Hs'). pose proof (inv_next_len _ Hs').
  pose proof (inv_max _ Hs') as Hmax.
  rewrite (le_max _ _ Hle'), (le_max _ _ Hle), Emax in *.
  unfold GetSlice. split_and!; try lia.
  intros Hty2. assert (max_slice_count CreateInfo = 1); [|lia].
  unfold max_slice_count. by destruct (Type_ (Desc CreateInfo)).
Qed.

Lemma resize_slices_length fuel Slice Extra MaxSlices : forall
    (slices slices' : list (option Mgr)),
  0 <= MaxSlices ->
  resize_slices fuel Slice Extra MaxSlices slices = Some slices' ->
  Z.of_nat (length slices') <= Z.max (Z.of_nat (length slices)) MaxSlices.
Proof.
  induction fuel as [|fuel IH]; intros slices slices' Hmax; simpl;
    destruct (Z.geb_spec Slice (Z.of_nat (length slices)));
    try done; try (intros [= <-]; lia).
  intros Hres. apply IH in Hres; [|done].
  rewrite length_resize in Hres. lia.
Qed.

Lemma select_slice_length a st Slice res :
  0 <= m_MaxSliceCount st ->
  select_slice a st Slice = Some res ->
  let st' := match res with inl (s, _) | inr (s, _) => s end in
  m_MaxSliceCount st' = m_MaxSliceCount st
  /\ Z.of_nat (length (m_Slices st'))
     <= Z.max (Z.of_nat (length (m_Slices st))) (m_MaxSliceCount st).
Proof.
  intros Hmax. unfold select_slice.
  set (s1 := match find_next_slice _ Slice with
             | Some s0 => s0 | None => m_NextUnusedSlice st end).
  destruct (s1 =? m_NextUnusedSlice st).
  - destruct (s1 =? m_MaxSliceCount st).
    + intros [= <-]. simpl. lia.
    + destruct (resize_slices _ _ _ _ _) as [slices'|] eqn:Hres; [|done].
      apply resize_slices_length in Hres; [|done].
      intros [= <-]. simpl. rewrite length_insert. lia.
  - intros [= <-]. simpl. lia.
Qed.

Lemma placement_loop_length a aw ah fuel : forall p p',
  0 <= m_MaxSliceCount (pl_atlas p) ->
  placement_loop fuel a aw ah p = Some p' ->
  m_MaxSliceCount (pl_atlas p') = m_MaxSliceCount (pl_atlas p)
  /\ Z.of_nat (length (m_Slices (pl_atlas p')))
     <= Z.max (Z.of_nat (length (m_Slices (pl_atlas p))))
              (m_MaxSliceCount (pl_atlas p)).
Proof.
  induction fuel as [|fuel IH]; intros p p' Hmax; simpl;
    destruct (pl_Slice p <? m_MaxSliceCount (pl_atlas p));
    try done; try (intros [= <-]; lia).
  unfold placement_step.
  destruct (select_slice a (pl_atlas p) (pl_Slice p)) as [res|] eqn:Hsel; [|done].
  apply select_slice_length in Hsel as [Emax Hlen]; [|done].
  destruct res as [[st s]|[st s]]; simpl in Emax, Hlen.
  { intros [= <-]. simpl. lia. }
  destruct (m_Slices st !! Z.to_nat s) as [[mgr|]|]; [| |done].
  - destruct (Mgr_Allocate mgr (aw / a) (ah / a)) as [mgr' r].
    destruct (negb (IsEmpty r)).
    + intros [= <-]. simpl. rewrite length_insert. lia.
    + intros Hloop. apply IH in Hloop; simpl in *; [|lia].
      rewrite length_insert in Hloop. lia.
  - intros Hloop. apply IH in Hloop; simpl in *; lia.
Qed.

Lemma step_length st st' :
  0 <= m_MaxSliceCount st -> step st st' ->
  m_MaxSliceCount st' = m_MaxSliceCount st
  /\ Z.of_nat (length (m_Slices st'))
     <= Z.max (Z.of_nat (length (m_Slices st))) (m_MaxSliceCount st).
Proof.
  intros Hmax [w h oh tr Hal|Slice a r w h Hf|dev ctx tex tr Hg].
  - unfold Allocate in Hal.
    destruct ((w =? 0) || (h =? 0)); [injection Hal as <- _ _; lia|].
    destruct ((w >? Width (m_Desc st)) || (h >? Height (m_Desc st)));
      [injection Hal as <- _ _; lia|].
    destruct (resolve_alignment (m_MinAlignment st) w h) as [a|]; [|done].
    destruct (placement_loop (placement_fuel st) a (AlignUp w a) (AlignUp h a) _)
      as [p|] eqn:Hloop; [|done].
    apply placement_loop_length in Hloop; [|done]. simpl in Hloop.
    destruct (IsEmpty (pl_Subregion p)); injection Hal as <- _ _; simpl; lia.
  - apply Free_Some in Hf as (mgr & _ & ->). simpl. rewrite length_insert. lia.
  - apply GetTexture_cases in Hg as [->|[_ ->]]; simpl; lia.
Qed.

(** X5: The slice collection, and with it the layer count GetTexture asks the
    device for, never grows past the larger of its length at the start
    and the maximum slice count. *)
Theorem slice_collection_bounded st st' :
  0 <= m_MaxSliceCount st -> steps st st' ->
  Z.of_nat (length (m_Slices st'))
  <= Z.max (Z.of_nat (length (m_Slices st))) (m_MaxSliceCount st)
  /\ forall dev ctx st'' tex tr,
       GetTexture st' (Some dev) ctx = Some (st'', tex, tr) ->
       ArraySize (m_Desc st'') <= Z.max (ArraySize (m_Desc st'))
           (Z.max (Z.of_nat (length (m_Slices st))) (m_MaxSliceCount st)).
Proof.
  intros Hmax Hsteps.
  assert (Hlen : m_MaxSliceCount st' = m_MaxSliceCount st
            /\ Z.of_nat (length (m_Slices st'))
               <= Z.max (Z.of_nat (length (m_Slices st))) (m_MaxSliceCount st)).
  { induction Hsteps as [st|st1 st2 st3 H12 _ IH]; [lia|].
    destruct (step_length _ _ Hmax H12) as [Emax Hl].
    destruct IH as [Emax' Hl']; lia. }
  destruct Hlen as [_ Hlen]. split; [done|].
  intros dev ctx st'' tex tr Hg.
  apply GetTexture_cases in Hg as [->|[_ ->]]; [lia|]. simpl.
  unfold wrap32.
  pose proof (Z.mod_le (Z.of_nat (length (m_Slices st'))) (2 ^ 32)). lia.
Qed.

End SliceBounds.

(** ** The grid of a slice *)

Section Grid.
Context {RM : RegionManager}.
Implicit Types st : DynamicTextureAtlasImpl.

Lemma grid_inv_ext st st' :
  m_Slices st' = m_Slices st ->
  m_AlignmentToSlice st' = m_AlignmentToSlice st ->
  Width (m_Desc st') = Width (m_Desc st) ->
  Height (m_Desc st') = Height (m_Desc st) ->
  grid_inv st -> grid_inv st'.
Proof. unfold grid_inv. intros -> -> -> ->. done. Qed.

Lemma grid_inv_find_or_emplace st a :
  grid_inv st ->
  grid_inv (set_buckets st (find_or_emplace a (m_AlignmentToSlice st))).
Proof.
  intros Hg b l i [Hb| ->]%find_or_emplace_inv Hi; simpl in *.
  - by apply (Hg b l i).
  - by apply elem_of_nil in Hi.
Qed.

Lemma grid_inv_update st (k : nat) mgr mgr' :
  m_Slices st !! k = Some (Some mgr) -> mgr_op mgr mgr' ->
  grid_inv st ->
  grid_inv (set_slices st (<[k := Some mgr']> (m_Slices st))).
Proof.
  intros Hk Hop Hg b l i Hb Hi. simpl in *.
  destruct (Hg b l i Hb Hi) as (m & Hm & Hev).
  destruct (decide (k = Z.to_nat i)) as [->|Hne].
  - exists mgr'. split.
    + apply list_lookup_insert_eq. by eapply lookup_lt_Some.
    + rewrite Hk in Hm. injection Hm as <-.
      eapply rtc_r; [exact Hev | exact Hop].
  - exists m. by rewrite list_lookup_insert_ne.
Qed.

Lemma grid_inv_create st a Slices (k : nat) :
  struct_inv st -> grid_inv st ->
  m_AlignmentToSlice st !! a = Some Slices ->
  m_NextUnusedSlice st < Z.of_nat (length (m_Slices st ++ replicate k None)) ->
  grid_inv
    (set_structure st
       (<[Z.to_nat (m_NextUnusedSlice st) :=
            Some (Mgr_new (Width (m_Desc st) / a) (Height (m_Desc st) / a))]>
          (m_Slices st ++ replicate k None))
       (<[a := Slices ++ [m_NextUnusedSlice st]]> (m_AlignmentToSlice st))
       (wrap32 (m_NextUnusedSlice st + 1))).
Proof.
  intros Hs Hg Ha Hlt b l i Hb Hi. simpl in *.
  pose proof (inv_next _ Hs) as Hn.
  assert (Hold : forall c lc j, m_AlignmentToSlice st !! c = Some lc -> j ∈ lc ->
            exists mgr,
              <[Z.to_nat (m_NextUnusedSlice st) :=
                  Some (Mgr_new (Width (m_Desc st) / a) (Height (m_Desc st) / a))]>
                (m_Slices st ++ replicate k None) !! Z.to_nat j = Some (Some mgr)
              /\ mgr_evolves
                   (Mgr_new (Width (m_Desc st) / c) (Height (m_Desc st) / c)) mgr).
  { intros c lc j Hc Hj. destruct (Hg c lc j Hc Hj) as (m & Hm & Hev).
    pose proof (inv_bucket_range _ Hs c lc j Hc Hj).
    exists m. split; [|done].
    rewrite list_lookup_insert_ne by lia.
    rewrite lookup_app_l; [done | by eapply lookup_lt_Some]. }
  destruct (decide (a = b)) as [<-|Hne].
  - rewrite lookup_insert_eq in Hb. injection Hb as <-.
    apply elem_of_app in Hi as [Hi| ->%list_elem_of_singleton].
    + by eapply Hold.
    + eexists. split; [apply list_lookup_insert_eq; lia | apply rtc_refl].
  - rewrite lookup_insert_ne in Hb by done. by eapply Hold.
Qed.

Lemma select_slice_grid a st Slice res :
  struct_inv st -> grid_inv st ->
  select_slice a st Slice = Some res ->
  grid_inv (match res with inl (s, _) | inr (s, _) => s end).
Proof.
  intros Hs Hg. unfold select_slice.
  pose proof (find_or_emplace_struct_inv st a Hs) as Hs1.
  pose proof (grid_inv_find_or_emplace st a Hg) as Hg1.
  destruct (find_or_emplace_lookup a (m_AlignmentToSlice st)) as (l & Hl & _).
  rewrite Hl. simpl default.
  set (s1 := match find_next_slice l Slice with
             | Some s0 => s0 | None => m_NextUnusedSlice st end).
  destruct (Z.eqb_spec s1 (m_NextUnusedSlice st)) as [->|]; [|by intros [= <-]].
  destruct (Z.eqb_spec (m_NextUnusedSlice st) (m_MaxSliceCount st));
    [by intros [= <-]|].
  destruct (resize_slices _ _ _ _ _) as [slices'|] eqn:Hres; [|done].
  pose proof (inv_next st Hs) as Hn. pose proof (inv_max st Hs) as Hm.
  apply resize_slices_inv in Hres as (k & -> & Hlt & Hlen);
    [| lia | lia | by apply inv_extra | by apply inv_next_len | by apply inv_len].
  intros [= <-].
  by apply (grid_inv_create
              (set_buckets st (find_or_emplace a (m_AlignmentToSlice st))) a l k).
Qed.

(** The loop keeps the grids, and a region it ends with was given by a
    manager built for the grid of the alignment. *)
Lemma placement_loop_grid st0 a aw ah fuel : forall p p',
  placement_inv st0 a p -> grid_inv (pl_atlas p) ->
  placement_loop fuel a aw ah p = Some p' ->
  grid_inv (pl_atlas p')
  /\ (IsEmpty (pl_Subregion p') = false ->
      exists mgr,
        mgr_evolves (Mgr_new (Width (m_Desc st0) / a) (Height (m_Desc st0) / a)) mgr
        /\ pl_Subregion p' = snd (Mgr_Allocate mgr (aw / a) (ah / a))).
Proof.
  induction fuel as [|fuel IH]; intros p p' Hp Hg; simpl;
    destruct (pl_Slice p <? m_MaxSliceCount (pl_atlas p)); try done;
    try (intros [= <-]; split; [done|];
         rewrite (pi_empty _ _ _ Hp); done).
  pose proof (placement_step_spec st0 a aw ah p Hp) as Hspec.
  unfold placement_step in *.
  destruct (select_slice a (pl_atlas p) (pl_Slice p)) as [res|] eqn:Hsel; [|done].
  pose proof (select_slice_grid _ _ _ _ (pi_struct _ _ _ Hp) Hg Hsel) as Hg'.
  destruct res as [[st s]|[st s]].
  { intros [= <-]. simpl. split; [done|]. rewrite (pi_empty _ _ _ Hp). done. }
  apply select_slice_chosen in Hsel
    as (Hs' & _ & (Ed & _) & _ & l & Hl & Hin & _);
    [| apply Hp | apply Hp].
  destruct (Hg' a l s Hl Hin) as (mgr & Hmgr & Hev).
  rewrite Hmgr in *.
  destruct (Mgr_Allocate mgr (aw / a) (ah / a)) as [mgr' r] eqn:Halloc.
  assert (Hg'' : grid_inv (set_slices st (<[Z.to_nat s := Some mgr']> (m_Slices st)))).
  { eapply grid_inv_update; [done | | done].
    apply (mgr_op_Allocate _ _ (aw / a) (ah / a)). by rewrite Halloc. }
  destruct (pi_same _ _ _ Hp) as (Ed0 & _).
  destruct (IsEmpty r) eqn:Hr; simpl in *.
  - destruct Hspec as (Hq & _). intros Hloop. by eapply IH.
  - intros [= <-]. simpl. split; [done|]. intros _.
    exists mgr. rewrite Halloc. split; [|done]. congruence.
Qed.

Lemma step_grid st st' :
  atlas_inv st -> grid_inv st -> step st st' -> grid_inv st'.
Proof.
  intros [Hs _ _ _ _ _] Hg [w h oh tr Hal|Slice a r w h Hf|dev ctx tex tr Hg'].
  - unfold Allocate in Hal.
    destruct ((w =? 0) || (h =? 0)); [by injection Hal as <- _ _|].
    destruct ((w >? Width (m_Desc st)) || (h >? Height (m_Desc st)));
      [by injection Hal as <- _ _|].
    destruct (resolve_alignment (m_MinAlignment st) w h) as [a|]; [|done].
    destruct (placement_loop (placement_fuel st) a (AlignUp w a) (AlignUp h a) _)
      as [p|] eqn:Hloop; [|done].
    apply (placement_loop_grid st) in Hloop as [Hgp _];
      [| by apply placement_inv_start | done].
    destruct (IsEmpty (pl_Subregion p)); injection Hal as <- _ _; [done|].
    by eapply grid_inv_ext; [..|exact Hgp].
  - apply Free_Some in Hf as (mgr & Hmgr & ->).
    apply (grid_inv_update (set_counters st _ _ _) (Z.to_nat Slice) mgr);
      [done | by eapply mgr_op_Free|].
    by eapply grid_inv_ext; [..|exact Hg].
  - apply GetTexture_cases in Hg' as [->|[_ ->]]; [done|].
    by eapply grid_inv_ext; [..|exact Hg].
Qed.

Lemma steps_grid st st' :
  atlas_inv st -> grid_inv st -> steps st st' -> grid_inv st'.
Proof.
  intros Hinv Hg Hsteps. induction Hsteps as [st|st1 st2 st3 H12 _ IH]; [done|].
  destruct (step_inv _ _ Hinv H12) as [Hinv2 _].
  apply IH; [done|]. exact (step_grid _ _ Hinv Hg H12).
Qed.

(** X6: The grid of a handle's slice: for an atlas built from [CreateInfo], at
    any later time, the region of a handle with alignment a was given, for
    the aligned size in cells, by a manager that was built for a grid of
    (width / a) x (height / a) cells and had until then only seen its own
    allocations and frees. *)
Theorem handle_region_from_aligned_grid pDevice CreateInfo st0 st w h st' hd tr :
  well_typed CreateInfo ->
  construct pDevice CreateInfo = inr st0 ->
  steps st0 st ->
  Allocate st w h = Some (st', Some hd, tr) ->
  exists mgr,
    mgr_evolves (Mgr_new (Width (Desc CreateInfo) / m_Alignment hd)
                         (Height (Desc CreateInfo) / m_Alignment hd)) mgr
    /\ m_Subregion hd
       = snd (Mgr_Allocate mgr
                (AlignUp w (m_Alignment hd) / m_Alignment hd)
                (AlignUp h (m_Alignment hd) / m_Alignment hd)).
Proof.
  intros Hty Hc Hsteps Hal.
  pose proof (construct_inv _ _ _ Hty Hc) as Hinv0.
  destruct (construct_config _ _ _ Hc) as (_ & _ & _ & _ & Ed & _).
  assert (Hg0 : grid_inv st0).
  { intros a l i Ha. exfalso. revert Ha. clear -Hc. unfold construct in Hc.
    destruct (validate _ _); [done|].
    destruct pDevice as [dev|].
    - destruct (ArraySize (Desc CreateInfo) >? 0).
      + destruct (dev (Desc CreateInfo)); [|done]. by injection Hc as <-.
      + by injection Hc as <-.
    - by injection Hc as <-. }
  assert (Hst : atlas_inv st /\ grid_inv st
                /\ set_ArraySize (m_Desc st) 0 = set_ArraySize (m_Desc st0) 0).
  { split_and!.
    - by apply (steps_inv st0 st).
    - by apply (steps_grid st0 st).
    - by apply steps_texture. }
  destruct Hst as (Hinv & Hg & Edesc).
  assert (EW : Width (m_Desc st) = Width (Desc CreateInfo)
               /\ Height (m_Desc st) = Height (Desc CreateInfo)).
  { rewrite Ed in Edesc.
    split; [apply (f_equal Width) in Edesc | apply (f_equal Height) in Edesc];
      done. }
  destruct EW as [EW EH]. rewrite <- EW, <- EH.
  unfold Allocate in Hal.
  destruct ((w =? 0) || (h =? 0)); [done|].
  destruct ((w >? Width (m_Desc st)) || (h >? Height (m_Desc st))); [done|].
  destruct (resolve_alignment (m_MinAlignment st) w h) as [a|]; [|done].
  destruct (placement_loop (placement_fuel st) a (AlignUp w a) (AlignUp h a) _)
    as [p|] eqn:Hloop; [|done].
  apply (placement_loop_grid st) in Hloop as [_ Hregion];
    [| apply placement_inv_start, Hinv | done].
  destruct (IsEmpty (pl_Subregion p)) eqn:He; [done|].
  injection Hal as _ <- _. simpl. by apply Hregion.
Qed.

End Grid.

(** ** The order of a bucket *)

(** On an increasing list the search of line 302 stops at the least listed
    slice that is not below the candidate, and runs to the end only when
    every listed slice is below it. *)
Lemma find_next_slice_least (l : list Z) Slice :
  StronglySorted Z.lt l ->
  match find_next_slice l Slice with
  | Some s => s ∈ l /\ Slice <= s /\ forall t, t ∈ l -> Slice <= t -> s <= t
  | None => forall t, t ∈ l -> t < Slice
  end.
Proof.
  induction l as [|x l IH]; simpl.
  - intros _ t Ht. by apply elem_of_nil in Ht.
  - intros [Hall Hsorted]%StronglySorted_cons.
    destruct (Z.gtb_spec Slice x) as [Hgt|Hle].
    + specialize (IH Hsorted).
      destruct (find_next_slice l Slice) as [s|].
      * destruct IH as (Hin & Hge & Hleast). split_and!; [by right | done |].
        intros t [->|Ht]%elem_of_cons Hst; [lia | by apply Hleast].
      * intros t [->|Ht]%elem_of_cons; [lia | by apply IH].
    + split_and!; [by left | done |].
      intros t [->|Ht]%elem_of_cons _; [lia|].
      rewrite Forall_forall in Hall. specialize (Hall t Ht). lia.
Qed.

Section Sorted.
Context {RM : RegionManager}.
Implicit Types st : DynamicTextureAtlasImpl.

Lemma sorted_inv_ext st st' :
  m_AlignmentToSlice st' = m_AlignmentToSlice st ->
  sorted_inv st -> sorted_inv st'.
Proof. unfold sorted_inv. intros ->. done. Qed.

Lemma select_slice_sorted a st Slice res :
  struct_inv st -> sorted_inv st ->
  select_slice a st Slice = Some res ->
  sorted_inv (match res with inl (s, _) | inr (s, _) => s end).
Proof.
  intros Hs Hsorted.
  assert (Hsorted1 : sorted_inv
            (set_buckets st (find_or_emplace a (m_AlignmentToSlice st)))).
  { intros b l [Hb| ->]%find_or_emplace_inv; [by eapply Hsorted|constructor]. }
  pose proof (find_or_emplace_struct_inv st a Hs) as Hs1.
  unfold select_slice.
  destruct (find_or_emplace_lookup a (m_AlignmentToSlice st)) as (l & Hl & _).
  rewrite Hl. simpl default.
  set (s1 := match find_next_slice l Slice with
             | Some s0 => s0 | None => m_NextUnusedSlice st end).
  destruct (Z.eqb_spec s1 (m_NextUnusedSlice st)) as [Es|]; [|by intros [= <-]].
  destruct (s1 =? m_MaxSliceCount st); [by intros [= <-]|].
  destruct (resize_slices _ _ _ _ _) as [slices'|]; [|done].
  intros [= <-]. intros b lb Hb. simpl in Hb.
  destruct (decide (a = b)) as [<-|Hne].
  - rewrite lookup_insert_eq in Hb. injection Hb as <-.
    apply StronglySorted_app_2.
    + intros x1 x2 Hx1 ->%list_elem_of_singleton.
      pose proof (inv_bucket_range _ Hs1 a l x1 Hl Hx1) as Hr. simpl in Hr.
      lia.
    + by apply (Hsorted1 a).
    + repeat constructor.
  - rewrite lookup_insert_ne in Hb by done. by apply (Hsorted1 b).
Qed.

Lemma placement_loop_sorted st0 a aw ah fuel : forall p p',
  placement_inv st0 a p -> sorted_inv (pl_atlas p) ->
  placement_loop fuel a aw ah p = Some p' ->
  sorted_inv (pl_atlas p').
Proof.
  induction fuel as [|fuel IH]; intros p p' Hp Hsorted; simpl;
    destruct (pl_Slice p <? m_MaxSliceCount (pl_atlas p)); try done;
    try (by intros [= <-]).
  pose proof (placement_step_spec st0 a aw ah p Hp) as Hspec.
  unfold placement_step in *.
  destruct (select_slice a (pl_atlas p) (pl_Slice p)) as [res|] eqn:Hsel; [|done].
  pose proof (select_slice_sorted _ _ _ _ (pi_struct _ _ _ Hp) Hsorted Hsel)
    as Hsorted'.
  destruct res as [[st s]|[st s]]; [by intros [= <-]|].
  destruct (m_Slices st !! Z.to_nat s) as [[mgr|]|]; [| |done].
  - destruct (Mgr_Allocate mgr (aw / a) (ah / a)) as [mgr' r].
    destruct (IsEmpty r); simpl in *.
    + destruct Hspec as (Hq & _). intros Hloop. by eapply IH.
    + by intros [= <-].
  - destruct Hspec as (Hq & _). intros Hloop. by eapply IH.
Qed.

Lemma step_sorted st st' :
  atlas_inv st -> sorted_inv st -> step st st' -> sorted_inv st'.
Proof.
  intros [Hs _ _ _ _ _] Hsorted [w h oh tr Hal|Slice a r w h Hf|dev ctx tex tr Hg].
  - unfold Allocate in Hal.
    destruct ((w =? 0) || (h =? 0)); [by injection Hal as <- _ _|].
    destruct ((w >? Width (m_Desc st)) || (h >? Height (m_Desc st)));
      [by injection Hal as <- _ _|].
    destruct (resolve_alignment (m_MinAlignment st) w h) as [a|]; [|done].
    destruct (placement_loop (placement_fuel st) a (AlignUp w a) (AlignUp h a) _)
      as [p|] eqn:Hloop; [|done].
    apply (placement_loop_sorted st) in Hloop;
      [| by apply placement_inv_start | done].
    destruct (IsEmpty (pl_Subregion p)); injection Hal as <- _ _; done.
  - apply Free_Some in Hf as (mgr & _ & ->). done.
  - apply GetTexture_cases in Hg as [->|[_ ->]]; done.
Qed.

Lemma steps_sorted st st' :
  atlas_inv st -> sorted_inv st -> steps st st' -> sorted_inv st'.
Proof.
  intros Hinv Hsorted Hsteps.
  induction Hsteps as [st|st1 st2 st3 H12 _ IH]; [done|].
  destruct (step_inv _ _ Hinv H12) as [Hinv2 _].
  apply IH; [done|]. exact (step_sorted _ _ Hinv Hsorted H12).
Qed.

(** X7: The buckets of an atlas built from [CreateInfo] are, at any later
    time, strictly increasing lists; so for every candidate the search of
    line 302 yields the least slice of the bucket that is not below the
    candidate, and falls through to the next unused slice only when every
    slice of the bucket is below it. *)
Theorem bucket_search_finds_least pDevice CreateInfo st0 st a l :
  well_typed CreateInfo ->
  construct pDevice CreateInfo = inr st0 ->
  steps st0 st ->
  m_AlignmentToSlice st !! a = Some l ->
  StronglySorted Z.lt l
  /\ forall Slice,
       match find_next_slice l Slice with
       | Some s => s ∈ l /\ Slice <= s /\ forall t, t ∈ l -> Slice <= t -> s <= t
       | None => forall t, t ∈ l -> t < Slice
       end.
Proof.
  intros Hty Hc Hsteps Hl.
  assert (Hsorted0 : sorted_inv st0).
  { intros b lb Hb. exfalso. revert Hb. clear -Hc. unfold construct in Hc.
    destruct (validate _ _); [done|].
    destruct pDevice as [dev|].
    - destruct (ArraySize (Desc CreateInfo) >? 0).
      + destruct (dev (Desc CreateInfo)); [|done]. by injection Hc as <-.
      + by injection Hc as <-.
    - by injection Hc as <-. }
  assert (Hsorted : StronglySorted Z.lt l).
  { by apply (steps_sorted st0 st (construct_inv _ _ _ Hty Hc) Hsorted0 Hsteps a). }
  split; [done|]. intros Slice. by apply find_next_slice_least.
Qed.

(** X12: Right after construction.  An atlas built with a device holds the
    texture the device made for the full descriptor (none when the array
    size is zero) and GetTexture returns it without asking for anything.
    An atlas built without a device holds no texture and records zero
    layers; if it has slices, its first GetTexture with a device asks for
    one texture with all of them, copies nothing (a null context will do)
    and leaves the version at 1. *)
Theorem first_GetTexture_after_construction pDevice CreateInfo st0 :
  well_typed CreateInfo ->
  construct pDevice CreateInfo = inr st0 ->
  GetVersion st0 = 0
  /\ (forall dev, pDevice = Some dev ->
        m_pTexture st0
          = (if ArraySize (Desc CreateInfo) >? 0 then dev (Desc CreateInfo)
             else None)
        /\ forall pDevice' pContext,
             GetTexture st0 pDevice' pContext = Some (st0, m_pTexture st0, []))
  /\ (pDevice = None ->
      m_pTexture st0 = None /\ ArraySize (m_Desc st0) = 0
      /\ (0 < ArraySize (Desc CreateInfo) ->
          forall dev pContext, exists st1,
            GetTexture st0 (Some dev) pContext
              = Some (st1, dev (Desc CreateInfo),
                      [EvCreateTexture (Desc CreateInfo);
                       EvLogInfo (MsgExpandingTextureArray
                                    (ArraySize (Desc CreateInfo)) 1)])
            /\ m_pTexture st1 = dev (Desc CreateInfo)
            /\ m_Desc st1 = Desc CreateInfo
            /\ GetVersion st1 = 1)).
Proof.
  intros (_ & _ & Hn & _) Hc. unfold is_uint32 in Hn.
  assert (Hlen : forall x : option Mgr,
            wrap32 (Z.of_nat (length (replicate (Z.to_nat (ArraySize (Desc CreateInfo))) x)))
            = ArraySize (Desc CreateInfo)).
  { intros x. rewrite length_replicate, Z2Nat.id by lia.
    apply wrap32_small. done. }
  unfold construct in Hc. destruct (validate _ _); [done|].
  destruct pDevice as [dev|].
  - destruct (Z.gtb_spec (ArraySize (Desc CreateInfo)) 0) as [Hpos|Hz].
    + destruct (dev (Desc CreateInfo)) as [tex|] eqn:Hdev; [|done].
      injection Hc as <-. split_and!; [done| |done].
      intros dev' [= <-]. split; [by rewrite Hdev|].
      intros. apply GetTexture_no_growth. simpl. by rewrite Hlen.
    + injection Hc as <-. split_and!; [done| |done].
      intros dev' [= <-]. split; [done|].
      intros. apply GetTexture_no_growth. simpl. by rewrite Hlen.
  - injection Hc as <-. split_and!; [done|done|].
    intros _. split_and!; [done|done|].
    intros Hpos dev pContext. unfold GetTexture.
    cbn [m_Desc m_Slices m_pTexture m_Version ArraySize set_ArraySize].
    rewrite Hlen.
    destruct (Z.eqb_spec 0 (ArraySize (Desc CreateInfo))); [lia|].
    cbn [negb map].
    assert (Ed : set_ArraySize (set_ArraySize (Desc CreateInfo) 0)
                   (ArraySize (Desc CreateInfo)) = Desc CreateInfo).
    { by destruct (Desc CreateInfo). }
    rewrite Ed. eexists. split; [reflexivity|]. done.
Qed.

End Sorted.

(** * The further properties at concrete inputs *)

Lemma info_256_well_typed n : is_uint32 n -> well_typed (info_256 n).
Proof. unfold well_typed, is_uint32. simpl. lia. Qed.

Lemma atlas_256_two_slices_steps : steps (atlas_256 4) atlas_256_two_slices.
Proof.
  unfold atlas_256_two_slices. etrans; apply after_Allocate_steps.
Qed.

(** Two allocations on the 256 x 256 atlas, then the two handles destroyed
    in the order they were handed out. *)
Lemma example_history :
  exists st1 h1 st2 h2 st3 st4,
    Allocate (atlas_256 4) 64 64 = Some (st1, Some h1, [])
    /\ Allocate st1 100 50 = Some (st2, Some h2, [])
    /\ destroy st2 h1 = Some st3
    /\ destroy st3 h2 = Some st4
    /\ counters st2 = (9096, 9096, 2)
    /\ counters st3 = (5000, 5000, 1).
Proof.
  do 6 eexists. repeat (split; [vm_compute; reflexivity|]).
  vm_compute; reflexivity.
Qed.

Lemma GetTexture_idempotent_witness :
  exists st' tex tr,
    GetTexture atlas_256_two_slices (Some good_device) (Some DeviceContext)
      = Some (st', tex, tr)
    /\ GetTexture st' None None = Some (st', tex, []).
Proof.
  assert (Hg : exists st' tex tr,
            GetTexture atlas_256_two_slices (Some good_device) (Some DeviceContext)
              = Some (st', tex, tr)).
  { do 3 eexists. vm_compute; reflexivity. }
  destruct Hg as (st' & tex & tr & Hg).
  exists st', tex, tr. split; [done|].
  apply (proj2 (GetTexture_idempotent _ _ _ _ _ _ Hg)).
Defined.

Lemma GetTexture_copies_every_subresource_witness :
  exists stale st' tex tr,
    m_pTexture atlas_256_two_slices = Some stale
    /\ GetTexture atlas_256_two_slices (Some good_device) (Some DeviceContext)
       = Some (st', tex, tr)
    /\ length tr = 3%nat.
Proof.
  assert (Hs : exists stale, m_pTexture atlas_256_two_slices = Some stale
                 /\ ArraySize (GetDesc stale) = 1 /\ MipLevels (GetDesc stale) = 1).
  { eexists. repeat (split; [vm_compute; reflexivity|]). vm_compute; reflexivity. }
  destruct Hs as (stale & Hs & Ha & Hm).
  destruct (GetTexture_copies_every_subresource atlas_256_two_slices
              good_device DeviceContext stale)
    as (st' & tex & copies & Hg & Hlen & _).
  - vm_compute. discriminate.
  - exact Hs.
  - exists stale, st', tex. eexists. split_and!; [done | exact Hg |].
    simpl. rewrite length_map, Hlen, Ha, Hm. reflexivity.
Defined.

Lemma GetTexture_null_arguments_witness :
  GetTexture atlas_256_two_slices None (Some DeviceContext) = None
  /\ GetTexture atlas_256_two_slices (Some good_device) None = None.
Proof.
  destruct (GetTexture_null_arguments atlas_256_two_slices) as (Hd & _ & Hc).
  - vm_compute. discriminate.
  - split; [apply Hd|].
    assert (Hs : exists stale, m_pTexture atlas_256_two_slices = Some stale
                   /\ ArraySize (GetDesc stale) = 1
                   /\ MipLevels (GetDesc stale) = 1).
    { eexists. repeat (split; [vm_compute; reflexivity|]).
      vm_compute; reflexivity. }
    destruct Hs as (stale & Hs & Ha & Hm).
    apply (Hc stale); [done | lia | lia].
Defined.


Lemma resolved_alignment_bounds_witness :
  resolve_alignment 32 96 96 = Some 128
  /\ IsPowerOfTwo 128 = true /\ 32 <= 128 < 2 ^ 32 /\ Z.min 96 96 <= 128.
Proof.
  assert (Hres : resolve_alignment 32 96 96 = Some 128) by reflexivity.
  destruct (resolved_alignment_bounds 32 96 96 128) as (Hp & Hr & _ & Hm & _).
  - reflexivity.
  - unfold is_uint32. lia.
  - exact Hres.
  - done.
Defined.

Lemma alignment_loop_overflow_witness :
  Allocate atlas_huge 2147483649 2147483649 = None.
Proof.
  apply (proj2 (alignment_loop_overflow atlas_huge 2147483649 2147483649
                  eq_refl ltac:(unfold is_uint32; simpl; lia)
                  ltac:(simpl; lia) ltac:(simpl; lia))).
Defined.

(** On the 96 x 96 atlas with minimum alignment 32 a second request of
    40 x 40 runs all three loops: the alignment doubles once to 64, the one
    cell of slice 0 is taken, the placement loop moves on to slice 1, and
    the collection is resized from one slice to two. *)
Lemma Allocate_returns_witness :
  (exists st' oh tr,
     Allocate (after_Allocate atlas_96 40 40) 40 40 = Some (st', oh, tr))
  /\ resolve_alignment (m_MinAlignment atlas_96) 40 40 = Some 64
  /\ length (m_Slices (after_Allocate atlas_96 40 40)) = 1%nat
  /\ m_AllocationCount (after_Allocate atlas_96 40 40) = 1
  /\ exists st' hd,
       Allocate (after_Allocate atlas_96 40 40) 40 40 = Some (st', Some hd, [])
       /\ m_Slice hd = 1
       /\ m_Alignment hd = 64
       /\ length (m_Slices st') = 2%nat.
Proof.
  split.
  - apply (Allocate_returns atlas_96 (after_Allocate atlas_96 40 40) 40 40).
    + apply atlas_96_inv.
    + left. simpl. lia.
    + apply after_Allocate_steps.
    + simpl. lia.
    + simpl. lia.
  - repeat (split; [vm_compute; reflexivity|]).
    do 2 eexists.
    repeat (split; [vm_compute; reflexivity|]).
    vm_compute; reflexivity.
Defined.

Lemma atlas_empty_inv : atlas_inv atlas_empty.
Proof.
  apply (construct_inv None info_empty); [|reflexivity].
  unfold well_typed, is_uint32. simpl. lia.
Qed.

Lemma Allocate_cannot_double_nothing_witness :
  Allocate atlas_empty 64 64 = None.
Proof.
  apply (proj2 (Allocate_cannot_double_nothing atlas_empty 64 64 1
                  (inv_struct _ atlas_empty_inv) eq_refl eq_refl
                  ltac:(simpl; lia) ltac:(simpl; lia) ltac:(simpl; lia)
                  eq_refl)).
Defined.

Lemma usage_counters_account_witness :
  exists st h2,
    history (atlas_256 4) [h2] st
    /\ m_AllocatedArea st = wrap_s64 (0 + (requested_area h2 + 0))
    /\ m_AllocationCount st = 1.
Proof.
  destruct example_history
    as (st1 & h1 & st2 & h2 & st3 & st4 & H1 & H2 & H3 & H4 & _ & Hc3).
  assert (Hh : history (atlas_256 4) [h2] st3).
  { apply (history_destroy _ [h2] h1 [] st2 st3); [|done].
    eapply history_Allocate; [|exact H2].
    eapply history_Allocate; [apply history_start | exact H1]. }
  destruct (usage_counters_account (atlas_256 4) [h2] st3
              Shelf_allocates_requested_size
              (atlas_256_inv 4 ltac:(unfold is_uint32; lia)) Hh)
    as (Ha & _ & _).
  exists st3, h2. split_and!; [done | exact Ha |].
  unfold counters in Hc3. by injection Hc3.
Defined.

Lemma drained_atlas_counters_zero_witness :
  exists st,
    history (atlas_256 4) [] st
    /\ m_AllocatedArea st = 0 /\ m_UsedArea st = 0 /\ m_AllocationCount st = 0.
Proof.
  destruct example_history
    as (st1 & h1 & st2 & h2 & st3 & st4 & H1 & H2 & H3 & H4 & _).
  assert (Hh : history (atlas_256 4) [] st4).
  { apply (history_destroy _ [] h2 [] st3 st4); [|done].
    apply (history_destroy _ [h2] h1 [] st2 st3); [|done].
    eapply history_Allocate; [|exact H2].
    eapply history_Allocate; [apply history_start | exact H1]. }
  exists st4. split; [done|].
  apply (drained_atlas_counters_zero (Some good_device) (info_256 4)
           (atlas_256 4) st4 Shelf_allocates_requested_size
           (info_256_well_typed 4 ltac:(unfold is_uint32; lia))
           (atlas_256_constructed 4) Hh).
Defined.

Lemma handle_stays_releasable_witness :
  exists st1 h1 st2 st3,
    Allocate (atlas_256 4) 64 64 = Some (st1, Some h1, [])
    /\ steps st1 st2
    /\ destroy st2 h1 = Some st3
    /\ m_AlignmentToSlice st3 = m_AlignmentToSlice st2.
Proof.
  destruct example_history
    as (st1 & h1 & st2 & h2 & _ & _ & H1 & H2 & _).
  assert (Hsteps : steps st1 st2).
  { apply rtc_once. by eapply step_Allocate. }
  destruct (handle_stays_releasable (atlas_256 4) 64 64 st1 h1 [] st2
              (atlas_256_inv 4 ltac:(unfold is_uint32; lia)) H1 Hsteps)
    as (st3 & mgr & Hd & _ & _ & Hb & _).
  exists st1, h1, st2, st3.
  split; [exact H1|]. split; [exact Hsteps|]. split; [exact Hd | exact Hb].
Defined.

Lemma handle_slice_in_range_witness :
  exists st' hd tr,
    Allocate atlas_256_two_slices 10 10 = Some (st', Some hd, tr)
    /\ 0 <= GetSlice hd < 4.
Proof.
  assert (Hal : exists st' hd tr,
            Allocate atlas_256_two_slices 10 10 = Some (st', Some hd, tr)).
  { do 3 eexists. vm_compute; reflexivity. }
  destruct Hal as (st' & hd & tr & Hal).
  destruct (handle_slice_in_range (Some good_device) (info_256 4) (atlas_256 4)
              atlas_256_two_slices 10 10 st' hd tr
              (info_256_well_typed 4 ltac:(unfold is_uint32; lia))
              (atlas_256_constructed 4) atlas_256_two_slices_steps Hal)
    as (Hr & _).
  exists st', hd, tr. split; [exact Hal | exact Hr].
Defined.

Lemma slice_collection_bounded_witness :
  Z.of_nat (length (m_Slices atlas_256_two_slices)) <= 4.
Proof.
  refine (proj1 (slice_collection_bounded (atlas_256 4) atlas_256_two_slices
                   _ atlas_256_two_slices_steps)).
  simpl. lia.
Defined.

Lemma handle_region_from_aligned_grid_witness :
  exists st' hd tr (mgr : @Mgr ShelfManager),
    Allocate atlas_256_two_slices 10 10 = Some (st', Some hd, tr)
    /\ @mgr_evolves ShelfManager
         (Mgr_new (256 / m_Alignment hd) (256 / m_Alignment hd)) mgr
    /\ m_Subregion hd
       = snd (Mgr_Allocate mgr (AlignUp 10 (m_Alignment hd) / m_Alignment hd)
                               (AlignUp 10 (m_Alignment hd) / m_Alignment hd)).
Proof.
  assert (Hal : exists st' hd tr,
            Allocate atlas_256_two_slices 10 10 = Some (st', Some hd, tr)).
  { do 3 eexists. vm_compute; reflexivity. }
  destruct Hal as (st' & hd & tr & Hal).
  destruct (handle_region_from_aligned_grid (Some good_device) (info_256 4)
              (atlas_256 4) atlas_256_two_slices 10 10 st' hd tr
              (info_256_well_typed 4 ltac:(unfold is_uint32; lia))
              (atlas_256_constructed 4) atlas_256_two_slices_steps Hal)
    as (mgr & Hev & Hr).
  exists st', hd, tr, mgr.
  split; [exact Hal|]. split; [exact Hev | exact Hr].
Defined.

Lemma bucket_search_finds_least_witness :
  m_AlignmentToSlice atlas_256_two_slices !! 1 = Some [0; 1]
  /\ StronglySorted Z.lt [0; 1].
Proof.
  assert (Hl : m_AlignmentToSlice atlas_256_two_slices !! 1 = Some [0; 1]).
  { vm_compute; reflexivity. }
  split; [done|].
  apply (proj1 (bucket_search_finds_least (Some good_device) (info_256 4)
                  (atlas_256 4) atlas_256_two_slices 1 [0; 1]
                  (info_256_well_typed 4 ltac:(unfold is_uint32; lia))
                  (atlas_256_constructed 4) atlas_256_two_slices_steps Hl)).
Defined.

Lemma first_GetTexture_after_construction_witness :
  exists st0 st1,
    @construct ShelfManager None info_256_two_layers = inr st0
    /\ m_pTexture st0 = None
    /\ GetTexture st0 (Some good_device) None
       = Some (st1, good_device (desc_256 2),
               [EvCreateTexture (desc_256 2);
                EvLogInfo (MsgExpandingTextureArray 2 1)])
    /\ GetVersion st1 = 1.
Proof.
  assert (Hc : exists st0,
            @construct ShelfManager None info_256_two_layers = inr st0).
  { eexists. reflexivity. }
  destruct Hc as (st0 & Hc).
  destruct (first_GetTexture_after_construction None info_256_two_layers st0)
    as (_ & _ & Hnone).
  - unfold well_typed, is_uint32. simpl. lia.
  - exact Hc.
  - destruct (Hnone eq_refl) as (Ht & _ & Hfirst).
    destruct (Hfirst ltac:(simpl; lia) good_device None)
      as (st1 & Hg & _ & _ & Hv).
    exists st0, st1.
    split; [exact Hc|]. split; [exact Ht|]. split; [exact Hg | exact Hv].
Defined.
